(** * Triadic agent: the staged extraction pipeline of [triadic_agent.py]

    A shallow embedding of the text-processing stages of [TriadicAgent]
    (explanation sanitizer, negative / neutral / positive extraction,
    diagnostics) and of the orchestrator [run], followed by the properties
    the specification states about them.

    Python strings are sequences of Unicode code points: a character is a
    code point ([N]) and a string a list of them.  The hosted language
    model is outside the program: every call to it goes through the
    [gateway] oracle of section [TriadicAgent], and the text it answers is an
    arbitrary string. *)

From Stdlib Require Import String Ascii.
From Stdlib Require Import List NArith Bool Arith Lia.
Import ListNotations.

(** ** Characters and strings *)

Definition char : Type := N.
Definition str : Type := list char.

(** A string literal of the source, for ASCII text. *)
Definition lit (s : string) : str := map N_of_ascii (list_ascii_of_string s).
Arguments lit s%_string.

Definition LF : char := 10%N.        (* "\n" *)
Definition CR : char := 13%N.        (* "\r" *)
Definition TAB : char := 9%N.        (* "\t" *)
Definition SPACE : char := 32%N.     (* " " *)
Definition QUOTE : char := 34%N.     (* the double quote *)
Definition STAR : char := 42%N.      (* "*" *)
Definition HYPHEN : char := 45%N.    (* "-" *)
Definition DOT : char := 46%N.       (* "." *)
Definition UNDERSCORE : char := 95%N.
Definition ENDASH : char := 8211%N.  (* U+2013, in the prompts *)
Definition BULLET : char := 8226%N.  (* U+2022, in the strip set *)

Local Open Scope N_scope.

Definition in_range (lo hi c : char) : bool := (N.leb lo c) && (N.leb c hi).

(** Python's Unicode whitespace ([str.isspace] of one character): what
    [str.strip()] and [str.split()] without arguments remove. *)
Definition is_space (c : char) : bool :=
  in_range 9 13 c || in_range 28 32 c || N.eqb c 133 || N.eqb c 160
  || N.eqb c 5760 || in_range 8192 8202 c || N.eqb c 8232 || N.eqb c 8233
  || N.eqb c 8239 || N.eqb c 8287 || N.eqb c 12288.

(** The line boundaries of [str.splitlines()]. *)
Definition is_linebreak (c : char) : bool :=
  in_range 10 13 c || in_range 28 30 c || N.eqb c 133
  || N.eqb c 8232 || N.eqb c 8233.

Definition is_ascii (c : char) : bool := N.ltb c 128.

Definition ascii_upper (c : char) : bool := in_range 65 90 c.

(** [[a-zA-Z0-9_]]: the word characters of the ASCII range. *)
Definition ascii_word (c : char) : bool :=
  in_range 48 57 c || in_range 65 90 c || in_range 97 122 c || N.eqb c UNDERSCORE.

Definition ascii_lower (c : char) : char :=
  if ascii_upper c then c + 32 else c.

Local Close Scope N_scope.

(** Python's Unicode character database is not part of the repository.
    The two tables the program consults beyond the ASCII range enter as
    the fields of [unicode_db]: [uni_alnum c] is [c.isalnum()] for one
    code point (what the regular expression class [\w] adds to the
    underscore), [uni_lower s] is [s.lower()] for a string that holds a
    non-ASCII code point. *)
Record unicode_db : Type := {
  uni_alnum : char -> bool;
  uni_lower : str -> str
}.

(** A database that knows nothing beyond ASCII; on ASCII text every
    database gives the same answers. *)
Definition ascii_db : unicode_db :=
  {| uni_alnum := fun _ => false; uni_lower := fun s => s |}.

(** ** String operations of the Python runtime *)

Fixpoint str_eqb (a b : str) : bool :=
  match a, b with
  | [], [] => true
  | x :: a', y :: b' => N.eqb x y && str_eqb a' b'
  | _, _ => false
  end.

Definition mem (c : char) (cs : str) : bool := existsb (N.eqb c) cs.

Fixpoint dropwhile (f : char -> bool) (s : str) : str :=
  match s with
  | [] => []
  | c :: r => if f c then dropwhile f r else s
  end.

Definition lstrip_by (f : char -> bool) (s : str) : str := dropwhile f s.
Definition rstrip_by (f : char -> bool) (s : str) : str := rev (dropwhile f (rev s)).
Definition strip_by (f : char -> bool) (s : str) : str := rstrip_by f (lstrip_by f s).

(** [s.strip()] *)
Definition strip (s : str) : str := strip_by is_space s.
(** [s.strip(chars)] *)
Definition strip_chars (chars s : str) : str := strip_by (fun c => mem c chars) s.
(** [s.rstrip(chars)] *)
Definition rstrip_chars (chars s : str) : str := rstrip_by (fun c => mem c chars) s.

(** The truth value of a string or list: non-empty. *)
Definition truthy {A} (l : list A) : bool :=
  match l with [] => false | _ => true end.

(** [s.endswith(".")] *)
Definition endswith_dot (s : str) : bool :=
  match rev s with c :: _ => N.eqb c DOT | [] => false end.

(** [p in s] for strings: [p] occurs in [s] as a substring. *)
Fixpoint prefixb (p s : str) : bool :=
  match p, s with
  | [], _ => true
  | _ :: _, [] => false
  | a :: p', c :: s' => N.eqb a c && prefixb p' s'
  end.

Fixpoint infixb (p s : str) : bool :=
  prefixb p s || match s with [] => false | _ :: r => infixb p r end.

(** [s.split(sep)] for a one-character separator: every occurrence
    splits, empty pieces are kept, the result is never empty. *)
Fixpoint split_on (sep : char) (s : str) : list str :=
  match s with
  | [] => [[]]
  | c :: r =>
      if N.eqb c sep then [] :: split_on sep r
      else match split_on sep r with
           | l :: ls => (c :: l) :: ls
           | [] => [[c]]
           end
  end.

(** [s.split()]: the maximal runs of non-whitespace characters. [cur] is
    the run being read, reversed. *)
Fixpoint split_ws_go (cur : str) (s : str) : list str :=
  match s with
  | [] => match cur with [] => [] | _ => [rev cur] end
  | c :: r =>
      if is_space c
      then match cur with
           | [] => split_ws_go [] r
           | _ => rev cur :: split_ws_go [] r
           end
      else split_ws_go (c :: cur) r
  end.

Definition split_ws (s : str) : list str := split_ws_go [] s.

(** [s.splitlines()]: split at every line boundary, "\r\n" counting as
    one; a last line without boundary is kept when it is not empty.
    [after_cr] says the previous character was "\r"; [cur] is the line
    being read, reversed. *)
Fixpoint splitlines_go (after_cr : bool) (cur : str) (s : str) : list str :=
  match s with
  | [] => match cur with [] => [] | _ => [rev cur] end
  | c :: r =>
      if after_cr && N.eqb c LF then splitlines_go false cur r
      else if is_linebreak c then rev cur :: splitlines_go (N.eqb c CR) [] r
      else splitlines_go false (c :: cur) r
  end.

Definition splitlines (s : str) : list str := splitlines_go false [] s.

(** [sep.join(parts)] *)
Fixpoint join (sep : str) (parts : list str) : str :=
  match parts with
  | [] => []
  | [p] => p
  | p :: ps => p ++ sep ++ join sep ps
  end.

(** [s.replace(b, "")] for a non-empty [b]: the occurrences of [b], read
    from the left and not overlapping, are deleted. [skip] counts the
    characters of the occurrence being deleted that are still ahead. *)
Fixpoint remove_go (b : str) (skip : nat) (s : str) : str :=
  match s with
  | [] => []
  | c :: r =>
      match skip with
      | S k => remove_go b k r
      | O => if prefixb b s then remove_go b (length b - 1) r
             else c :: remove_go b 0 r
      end
  end.

Definition remove_all (b s : str) : str := remove_go b 0 s.

(** ** Data structures *)

Module Result.
Record t : Type := make {
  topic : str;
  explanation : str;
  negative : list str;
  neutral : list str;
  positive : list str;
  diagnostics : list str
}.
End Result.

Abbreviation TriadicResult := Result.t.

(** One request to the hosted model, as [call] posts it. *)
Record request : Type := {
  req_model : str;
  req_prompt : str;
  req_max_tokens : nat
}.

(** The hosted service. It answers a request with the content of the
    first choice of its reply, or fails ([None]: a transport error, a
    reply of another shape); what it answers may depend on the requests
    made before. *)
Definition gateway : Type := list request -> request -> option str.

(** A computation that calls the Gateway: it reads the requests made so
    far and returns its result with the requests it added. *)
Definition Gateway (A : Type) : Type := list request -> A * list request.

Definition ret {A} (a : A) : Gateway A := fun log => (a, log).

Definition bind {A B} (m : Gateway A) (k : A -> Gateway B) : Gateway B :=
  fun log => let (a, log') := m log in k a log'.

Notation "x <- m ;; k" := (bind m (fun x => k))
  (at level 61, m at next level, right associativity).

(** ** The prompts *)

Definition quoted (s : str) : str := [QUOTE] ++ s ++ [QUOTE].
Definition triple_quoted (s : str) : str := [QUOTE; QUOTE; QUOTE] ++ s ++ [QUOTE; QUOTE; QUOTE].

(** A triple-quoted template of the source, line by line. *)
Definition text (lines : list str) : str := join [LF] lines.

(** ["
".join(f"- {n}" for n in items)] *)
Definition dash_list (items : list str) : str :=
  join [LF] (map (fun n => lit "- " ++ n) items).

Definition explanation_prompt (topic : str) : str :=
  text [ [];
    lit "Explain the topic below in 3" ++ [ENDASH] ++ lit "6 sentences using ONLY physical causality:";
    [];
    triple_quoted topic;
    [];
    lit "No metaphor, no interpretation, no subjective description.";
    lit "Pure physical sequence of events.";
    [] ].

Definition negative_prompt (explanation : str) : str :=
  text [ [];
    lit "Extract ONLY the physical initial components that exist BEFORE any process begins.";
    [];
    lit "Rules:";
    lit "- MUST be concrete objects, particles, energies, or measurable physical states.";
    lit "- NO actions, NO processes, NO outcomes.";
    lit "- NO abstract nouns (like " ++ quoted (lit "disturbance") ++ lit ", "
      ++ quoted (lit "propagation") ++ lit ", " ++ quoted (lit "region") ++ lit ", "
      ++ quoted (lit "speed") ++ lit ").";
    lit "- 4" ++ [ENDASH] ++ lit "10 items MAX.";
    lit "- Very strict physical filtering.";
    [];
    lit "EXPLANATION:";
    triple_quoted explanation;
    [];
    lit "Output as a simple list, one item per line.";
    [] ].

Definition neutral_prompt (negative : list str) : str :=
  let neg_list := dash_list negative in
  text [ [];
    lit "Generate 4" ++ [ENDASH] ++ lit "8 NEUTRAL mechanisms describing HOW these physical components interact.";
    [];
    lit "Rules:";
    lit "- One sentence per line.";
    lit "- Must reference AT LEAST TWO items from the NEGATIVE list.";
    lit "- Pure causal mechanisms.";
    lit "- No outcomes.";
    lit "- No future consequences.";
    [];
    lit "NEGATIVE LIST:";
    neg_list;
    [];
    lit "Write only the mechanisms.";
    [] ].

Definition positive_prompt (neutral : list str) : str :=
  let neu_list := dash_list neutral in
  text [ [];
    lit "Transform each NEUTRAL mechanism into a REALIZED STATE.";
    [];
    lit "Rules:";
    lit "- One item per line.";
    lit "- MUST be either:";
    lit "    (a) pure noun phrase, OR";
    lit "    (b) passive-perfect realized condition (" ++ quoted (lit "is established")
      ++ lit ", " ++ quoted (lit "is stabilized") ++ lit ", " ++ quoted (lit "is present")
      ++ lit ", " ++ quoted (lit "is formed") ++ lit ", " ++ quoted (lit "is maintained")
      ++ lit ").";
    lit "- NO high-level causal verbs: no creates, leads to, results in, causes, produces.";
    lit "- MUST represent a completed physical condition that exists AFTER the mechanism.";
    lit "- DO NOT restate or paraphrase the neutral mechanism word-for-word.";
    lit "- Prefer stable state descriptions like " ++ quoted (lit "a region of X is present")
      ++ lit ", " ++ quoted (lit "Y is established") ++ lit ", "
      ++ quoted (lit "Z pattern exists") ++ lit ".";
    [];
    lit "NEUTRAL MECHANISMS:";
    neu_list;
    [];
    lit "Output one realized state per line, same order.";
    [] ].

Definition DEEPSEEK_R1 : str := lit "deepseek/deepseek-r1".
Definition GPT_4O_MINI : str := lit "openai/gpt-4o-mini".

(** ** The agent *)

Section TriadicAgent.

Variable db : unicode_db.
Variable gw : gateway.

(** The class [\w] of [re] on a [str] pattern. *)
Definition is_word (c : char) : bool :=
  if is_ascii c then ascii_word c else uni_alnum db c.

(** [s.lower()] *)
Definition lower (s : str) : str :=
  if forallb is_ascii s then map ascii_lower s else uni_lower db s.

(** [$] without [re.MULTILINE]: the end of the string, or the newline
    that ends it. *)
Definition at_end (s : str) : bool :=
  match s with
  | [] => true
  | [c] => N.eqb c LF
  | _ => false
  end.

(** [\w+$] read at the head of [s], greedily: the text left after the
    match, which is empty or the final newline. *)
Fixpoint word_run_end (s : str) : option str :=
  match s with
  | [] => None
  | c :: r =>
      if is_word c
      then match word_run_end r with
           | Some rest => Some rest
           | None => if at_end r then Some r else None
           end
      else None
  end.

(** [re.sub(r"\b\w+$", "", s)]: the search goes from the left;
    [prev_word] says the character before the position is a word
    character, so [\b] before a word character holds when it is false.
    The text after a match is empty or one newline, where the pattern
    cannot match again. *)
Fixpoint re_sub_go (prev_word : bool) (s : str) : str :=
  match s with
  | [] => []
  | c :: r =>
      if negb prev_word && is_word c
      then match word_run_end s with
           | Some rest => rest
           | None => c :: re_sub_go (is_word c) r
           end
      else c :: re_sub_go (is_word c) r
  end.

Definition re_sub_trailing_word (s : str) : str := re_sub_go false s.

(** *** Model wrapper *)

(** [call]: one POST to the service, 500 tokens at most unless the
    caller says otherwise (no caller does). The content is stripped; any
    failure is printed and answered by the empty string. *)
Definition call (model prompt : str) : Gateway str :=
  fun log =>
    let rq := {| req_model := model; req_prompt := prompt; req_max_tokens := 500 |} in
    (match gw log rq with
     | Some content => strip content
     | None => []
     end, log ++ [rq]).

(** *** Explanation sanitizer *)

Definition explanation_banned : list str :=
  [ lit "perceive"; lit "interpreted"; lit "heard as"; lit "listener"; lit "music";
    lit "emotion"; lit "harmony"; lit "experience"; lit "sensation" ].

(** The loop [for b in banned: clean = clean.replace(b, "")]. *)
Definition scrub (banned : list str) (clean : str) : str :=
  fold_left (fun clean b => remove_all b clean) banned clean.

Definition sanitize_explanation (explanation : str) : str :=
  (* remove incomplete final sentence *)
  let explanation := strip (re_sub_trailing_word explanation) in
  (* enforce final period *)
  let explanation :=
    if endswith_dot explanation then explanation else explanation ++ [DOT] in
  (* collapse multiline into single string *)
  let lines :=
    map strip (filter (fun l => truthy (strip l)) (split_on LF explanation)) in
  let clean := join [SPACE] lines in
  (* strip conceptual / subjective fluff *)
  let clean := scrub explanation_banned clean in
  strip clean.

Definition build_explanation (topic : str) : Gateway str :=
  raw <- call DEEPSEEK_R1 (explanation_prompt topic) ;;
  ret (sanitize_explanation raw).

(** *** Negative extraction *)

Definition bullet_chars : str := [SPACE; HYPHEN; STAR; BULLET; TAB].

Definition negative_banned : list str :=
  [ lit "wave"; lit "propagation"; lit "disturbance"; lit "region";
    lit "pattern"; lit "flow"; lit "motion"; lit "compression";
    lit "rarefaction"; lit "nearby"; lit "neighboring"; lit "process";
    lit "interaction" ].

Definition property_keywords : list str :=
  [ lit "density"; lit "energy"; lit "force" ].

(** [any(b in item for b in banned)] *)
Definition has_banned (banned : list str) (item : str) : bool :=
  existsb (fun b => infixb b item) banned.

(** [any(pk == item or (pk + " " in item) for pk in property_keywords)] *)
Definition property_hit (item : str) : bool :=
  existsb (fun pk => str_eqb pk item || infixb (pk ++ [SPACE]) item) property_keywords.

(** The parsed candidates: one per non-blank line, bullets stripped,
    lower-cased. *)
Definition negative_items (raw : str) : list str :=
  map (fun l => lower (strip_chars bullet_chars l))
      (filter (fun l => truthy (strip l)) (splitlines raw)).

(** The filtering loop: [continue] skips the item, the others are
    appended to [clean] in turn. *)
Fixpoint hard_filter (items : list str) : list str :=
  match items with
  | [] => []
  | item :: rest =>
      if has_banned negative_banned item then hard_filter rest
      else if 3 <? length (split_ws item) then hard_filter rest
      else if property_hit item then hard_filter rest
      else item :: hard_filter rest
  end.

(** [extract_negative] after the call, on the text [raw] it returned. *)
Definition parse_negative (raw : str) : list str :=
  firstn 10 (hard_filter (negative_items raw)).

Definition extract_negative (explanation : str) : Gateway (list str) :=
  raw <- call GPT_4O_MINI (negative_prompt explanation) ;;
  ret (parse_negative raw).

(** *** Neutral interactions *)

(** [extract_neutral] after the call, on the text [raw] it returned. *)
Definition parse_neutral (raw : str) : list str :=
  map (fun l => rstrip_chars [DOT] (strip l) ++ [DOT])
      (filter (fun l => truthy (strip l)) (splitlines raw)).

Definition extract_neutral (negative : list str) : Gateway (list str) :=
  raw <- call DEEPSEEK_R1 (neutral_prompt negative) ;;
  ret (parse_neutral raw).

(** *** Positive states *)

Definition banned_verbs : list str :=
  [ lit "creates"; lit "leads to"; lit "results in"; lit "causes"; lit "produces" ].

Definition positive_items (raw : str) : list str :=
  map (strip_chars bullet_chars)
      (filter (fun l => truthy (strip l)) (splitlines raw)).

(** The light filter: lines with a banned verb are skipped. *)
Fixpoint light_filter (items : list str) : list str :=
  match items with
  | [] => []
  | it :: rest =>
      let lower_it := lower it in
      if has_banned banned_verbs lower_it then light_filter rest
      else it :: light_filter rest
  end.

(** [extract_positive] after the call, on the text [raw] it returned. *)
Definition parse_positive (neutral : list str) (raw : str) : list str :=
  firstn (length neutral) (light_filter (positive_items raw)).

Definition extract_positive (neutral : list str) : Gateway (list str) :=
  raw <- call GPT_4O_MINI (positive_prompt neutral) ;;
  ret (parse_positive neutral raw).

(** *** Diagnostics *)

Definition NEGATIVE_FAILED : str := lit "NEGATIVE extraction failed.".
Definition NEUTRAL_FAILED : str := lit "NEUTRAL extraction failed.".
Definition POSITIVE_FAILED : str := lit "POSITIVE extraction failed.".
Definition NEU_POS_MISMATCH : str := lit "NEU/POS mismatch.".

(** [out.append(msg)] under [if cond]. *)
Definition append_if (cond : bool) (msg : str) (out : list str) : list str :=
  if cond then out ++ [msg] else out.

Definition analyze (neg neu pos : list str) : list str :=
  let out := [] in
  let out := append_if (negb (truthy neg)) NEGATIVE_FAILED out in
  let out := append_if (negb (truthy neu)) NEUTRAL_FAILED out in
  let out := append_if (negb (truthy pos)) POSITIVE_FAILED out in
  let out := append_if (negb (length neu =? length pos)) NEU_POS_MISMATCH out in
  out.

(** *** Run triad *)

Definition run (topic : str) : Gateway TriadicResult :=
  explanation <- build_explanation topic ;;
  negative <- extract_negative explanation ;;
  neutral <- extract_neutral negative ;;
  positive <- extract_positive neutral ;;
  let diags := analyze negative neutral positive in
  ret (Result.make topic explanation negative neutral positive diags).

End TriadicAgent.

(** ** What the specification's words mean *)

(** [p] occurs in [s] as a substring. *)
Definition occurs_in (p s : str) : Prop := exists u v, s = u ++ p ++ v.

(** [s] ends with a period that no other period precedes. *)
Definition ends_with_one_dot (s : str) : Prop :=
  exists p, s = p ++ [DOT] /\ endswith_dot p = false.

(** The trailing run of word characters taken off [s], a final newline
    being left in place: the truncation of an unfinished last word. *)
Definition strip_trailing_word_run (db : unicode_db) (s : str) : str :=
  match rev s with
  | c :: b => if N.eqb c LF then rstrip_by (is_word db) (rev b) ++ [LF]
              else rstrip_by (is_word db) s
  | [] => []
  end.

(** [p] is empty, or ends with a character that is not a word character
    and, followed by [tail], is not the newline that ends the text: the
    text before the trailing run of word characters. *)
Definition blocked (db : unicode_db) (p tail : str) : Prop :=
  p = [] \/ exists p0 d, p = p0 ++ [d] /\ is_word db d = false
                         /\ (d = LF -> tail <> []).

(** The last whitespace-delimited token taken off [s]. *)
Definition without_last_token (s : str) : list str := removelast (split_ws s).

(** A candidate survives the hard filter of the negative stage. *)
Definition survives (item : str) : bool :=
  negb (has_banned negative_banned item)
  && (length (split_ws item) <=? 3)
  && negb (property_hit item).

(** [pk] stands in [item] as a word of its own, after at least one
    other word: the property term carries a qualifying modifier. *)
Definition modified_term (pk item : str) : bool :=
  existsb (str_eqb pk) (tl (split_ws item)).

(** The diagnostics as the specification lists them. *)
Definition expected_diagnostics (neg neu pos : list str) : list str :=
  (match neg with [] => [NEGATIVE_FAILED] | _ => [] end)
  ++ (match neu with [] => [NEUTRAL_FAILED] | _ => [] end)
  ++ (match pos with [] => [POSITIVE_FAILED] | _ => [] end)
  ++ (if Nat.eq_dec (length neu) (length pos) then [] else [NEU_POS_MISMATCH]).

(** A response of nine one-sentence lines. *)
Definition nine_lines : str :=
  text [lit "a b"; lit "c d"; lit "e f"; lit "g h"; lit "i j";
        lit "k l"; lit "m n"; lit "o p"; lit "q r"].

(** The answer [call] returns for a request. *)
Definition reply (gw : gateway) (log : list request) (model prompt : str) : str :=
  match gw log {| req_model := model; req_prompt := prompt; req_max_tokens := 500 |} with
  | Some content => strip content
  | None => []
  end.

Definition mk_request (model prompt : str) : request :=
  {| req_model := model; req_prompt := prompt; req_max_tokens := 500 |}.

(** ** The report and further notions *)

Definition EMDASH : char := 8212%N.  (* U+2014, in the report headings *)

(** [print(a, b, ...)]: the arguments separated by spaces, then a
    newline. *)
Definition print_line (args : list str) : str := join [SPACE] args ++ [LF].

(** [for n in items: print(" ", n)] *)
Definition print_items (items : list str) : str :=
  concat (map (fun n => print_line [[SPACE]; n]) items).

(** What the entry point writes to standard output once [run] has
    returned. *)
Definition report (result : TriadicResult) : str :=
  print_line [lit "===== TRIADIC AGENT v7.0 ====="]
  ++ print_line [lit "TOPIC:"; Result.topic result; [LF]]
  ++ print_line [lit "EXPLANATION:"; Result.explanation result; [LF]]
  ++ print_line [lit "NEGATIVE " ++ [EMDASH] ++ lit " INITIAL STATES:"]
  ++ print_items (Result.negative result)
  ++ print_line [[LF] ++ lit "NEUTRAL " ++ [EMDASH] ++ lit " INTERACTIONS:"]
  ++ print_items (Result.neutral result)
  ++ print_line [[LF] ++ lit "POSITIVE " ++ [EMDASH] ++ lit " REALIZED STATES:"]
  ++ print_items (Result.positive result)
  ++ print_line [[LF] ++ lit "DIAGNOSTICS:"]
  ++ print_items (Result.diagnostics result).

(** A text of whitespace only. *)
Definition blank (s : str) : bool := forallb is_space s.

(** A Gateway that gives no signal: every answer is a failure or blank. *)
Definition silent (gw : gateway) : Prop :=
  forall log rq, match gw log rq with
                 | Some content => blank content = true
                 | None => True
                 end.

(** The result of a run without any signal from the model. *)
Definition failure_result (topic : str) : TriadicResult :=
  Result.make topic [DOT] [] [] []
    [NEGATIVE_FAILED; NEUTRAL_FAILED; POSITIVE_FAILED].

(** [l] holds no line boundary. *)
Definition no_linebreak (l : str) : Prop :=
  Forall (fun c => is_linebreak c = false) l.






(** ** The runtime's string operations *)

Lemma str_eqb_eq (a b : str) : str_eqb a b = true <-> a = b.
Proof.
  revert b; induction a as [|x a IH]; intros [|y b]; simpl; split; intro H;
    try reflexivity; try discriminate.
  - apply andb_true_iff in H as [Hx Hab]. apply N.eqb_eq in Hx.
    apply IH in Hab. congruence.
  - injection H as -> ->. rewrite N.eqb_refl. simpl. now apply IH.
Qed.

Lemma prefixb_spec (p s : str) : prefixb p s = true <-> exists v, s = p ++ v.
Proof.
  revert s; induction p as [|a p IH]; intros s; simpl.
  - split; [intros _; now exists s | reflexivity].
  - destruct s as [|c s].
    + split; [discriminate | intros [v Hv]; discriminate].
    + rewrite andb_true_iff, N.eqb_eq, IH. split.
      * intros [-> [v ->]]. now exists v.
      * intros [v Hv]. injection Hv as -> ->. split; [reflexivity | now exists v].
Qed.

Lemma infixb_spec (p s : str) : infixb p s = true <-> occurs_in p s.
Proof.
  unfold occurs_in. induction s as [|c s IH].
  - simpl. rewrite orb_false_r, prefixb_spec. split.
    + intros [v Hv]. now exists [], v.
    + intros [u [v Hv]]. destruct u; [now exists v | discriminate].
  - cbn [infixb]. rewrite orb_true_iff, prefixb_spec, IH. split.
    + intros [[v Hv] | [u [v Hv]]].
      * now exists [], v.
      * exists (c :: u), v. now rewrite Hv.
    + intros [[|d u] [v Hv]].
      * left. now exists v.
      * right. injection Hv as -> ->. now exists u, v.
Qed.

Lemma dropwhile_suffix f (s : str) : exists a, s = a ++ dropwhile f s /\ forallb f a = true.
Proof.
  induction s as [|c s [a [Ha Hf]]]; simpl.
  - now exists [].
  - destruct (f c) eqn:E.
    + exists (c :: a). simpl. rewrite E, Hf. split; [now rewrite <- Ha | reflexivity].
    + now exists [].
Qed.

Lemma dropwhile_head f (s : str) :
  match dropwhile f s with [] => True | c :: _ => f c = false end.
Proof.
  induction s as [|c s IH]; simpl; [exact I|].
  destruct (f c) eqn:E; [exact IH | exact E].
Qed.

Lemma dropwhile_fixed f (s : str) :
  match s with [] => True | c :: _ => f c = false end -> dropwhile f s = s.
Proof. destruct s as [|c s]; simpl; [reflexivity | now intros ->]. Qed.

Lemma dropwhile_idem f (s : str) : dropwhile f (dropwhile f s) = dropwhile f s.
Proof. apply dropwhile_fixed, dropwhile_head. Qed.

Lemma dropwhile_app_last f (p : str) (d : char) :
  f d = false -> dropwhile f (p ++ [d]) = dropwhile f p ++ [d].
Proof.
  intros Hd. induction p as [|c p IH]; simpl.
  - now rewrite Hd.
  - destruct (f c); [exact IH | reflexivity].
Qed.

Lemma dropwhile_In f (s : str) (c : char) : In c (dropwhile f s) -> In c s.
Proof.
  induction s as [|d s IH]; simpl; [tauto|].
  destruct (f d); [intro H; right; now apply IH | simpl; tauto].
Qed.

Lemma rstrip_by_app_last f (p : str) (d : char) :
  f d = false -> rstrip_by f (p ++ [d]) = p ++ [d].
Proof.
  intros Hd. unfold rstrip_by. rewrite rev_unit. simpl. rewrite Hd.
  simpl. now rewrite rev_involutive.
Qed.

(** Stripping keeps a last character that is not stripped. *)
Lemma strip_by_app_last f (p : str) (d : char) :
  f d = false -> strip_by f (p ++ [d]) = dropwhile f p ++ [d].
Proof.
  intros Hd. unfold strip_by, lstrip_by.
  rewrite dropwhile_app_last by exact Hd. now apply rstrip_by_app_last.
Qed.

Lemma strip_by_In f (s : str) (c : char) : In c (strip_by f s) -> In c s.
Proof.
  unfold strip_by, rstrip_by, lstrip_by. intros H.
  apply in_rev, dropwhile_In, in_rev in H. now apply dropwhile_In in H.
Qed.

(** What right-stripping leaves does not end with a stripped character. *)
Lemma rstrip_by_last f (s : str) :
  match rev (rstrip_by f s) with [] => True | c :: _ => f c = false end.
Proof. unfold rstrip_by. rewrite rev_involutive. apply dropwhile_head. Qed.

(** What stripping leaves does not start with a stripped character. *)
Lemma strip_by_head f (s : str) :
  match strip_by f s with [] => True | c :: _ => f c = false end.
Proof.
  unfold strip_by, rstrip_by, lstrip_by.
  pose proof (dropwhile_head f s) as Hh.
  destruct (dropwhile_suffix f (rev (dropwhile f s))) as [a [Ha _]].
  apply (f_equal (@rev char)) in Ha. rewrite rev_involutive, rev_app_distr in Ha.
  destruct (rev (dropwhile f (rev (dropwhile f s)))) as [|c t]; [exact I|].
  rewrite Ha in Hh. exact Hh.
Qed.

Lemma strip_by_idem f (s : str) : strip_by f (strip_by f s) = strip_by f s.
Proof.
  pose proof (strip_by_head f s) as Hh.
  pose proof (rstrip_by_last f (lstrip_by f s)) as Hl.
  change (rstrip_by f (lstrip_by f s)) with (strip_by f s) in Hl.
  set (t := strip_by f s) in *.
  unfold strip_by at 1, lstrip_by, rstrip_by.
  rewrite (dropwhile_fixed f t Hh), (dropwhile_fixed f (rev t) Hl).
  apply rev_involutive.
Qed.

Lemma strip_idem (s : str) : strip (strip s) = strip s.
Proof. apply strip_by_idem. Qed.

Lemma endswith_dot_app (p : str) : endswith_dot (p ++ [DOT]) = true.
Proof. unfold endswith_dot. now rewrite rev_unit. Qed.

Lemma endswith_dot_inv (s : str) :
  endswith_dot s = true -> exists p, s = p ++ [DOT].
Proof.
  unfold endswith_dot. destruct (rev s) as [|c r] eqn:E; [discriminate|].
  intros H. apply N.eqb_eq in H. subst c. exists (rev r).
  apply (f_equal (@rev char)) in E. rewrite rev_involutive in E. exact E.
Qed.

(** ** Diagnostics *)

Lemma diagnostic_messages_distinct :
  NEGATIVE_FAILED <> NEUTRAL_FAILED /\ NEGATIVE_FAILED <> POSITIVE_FAILED
  /\ NEGATIVE_FAILED <> NEU_POS_MISMATCH /\ NEUTRAL_FAILED <> POSITIVE_FAILED
  /\ NEUTRAL_FAILED <> NEU_POS_MISMATCH /\ POSITIVE_FAILED <> NEU_POS_MISMATCH.
Proof. repeat split; intro H; vm_compute in H; discriminate. Qed.

Lemma analyze_expected (neg neu pos : list str) :
  analyze neg neu pos = expected_diagnostics neg neu pos.
Proof.
  unfold analyze, expected_diagnostics, append_if.
  destruct (Nat.eq_dec (length neu) (length pos)) as [E|E].
  - rewrite (proj2 (Nat.eqb_eq _ _) E).
    destruct neg, neu, pos; reflexivity.
  - rewrite (proj2 (Nat.eqb_neq _ _) E).
    destruct neg, neu, pos; reflexivity.
Qed.

(** C1. The diagnostics are, in this order, the NEGATIVE, NEUTRAL and
    POSITIVE failure messages, each present exactly when its sequence is
    empty, then the mismatch message, present exactly when neutral and
    positive differ in length; nothing else is emitted, and the
    diagnostics are empty exactly when the three sequences are non-empty
    and neutral and positive have the same length. *)
Theorem analyze_diagnostics (neg neu pos : list str) :
  analyze neg neu pos = expected_diagnostics neg neu pos
  /\ (In NEGATIVE_FAILED (analyze neg neu pos) <-> neg = [])
  /\ (In NEUTRAL_FAILED (analyze neg neu pos) <-> neu = [])
  /\ (In POSITIVE_FAILED (analyze neg neu pos) <-> pos = [])
  /\ (In NEU_POS_MISMATCH (analyze neg neu pos) <-> length neu <> length pos)
  /\ (forall m, In m (analyze neg neu pos) ->
        m = NEGATIVE_FAILED \/ m = NEUTRAL_FAILED
        \/ m = POSITIVE_FAILED \/ m = NEU_POS_MISMATCH)
  /\ (analyze neg neu pos = [] <->
        neg <> [] /\ neu <> [] /\ pos <> [] /\ length neu = length pos).
Proof.
  destruct diagnostic_messages_distinct as (D1 & D2 & D3 & D4 & D5 & D6).
  split; [apply analyze_expected|].
  rewrite analyze_expected. unfold expected_diagnostics.
  destruct (Nat.eq_dec (length neu) (length pos)) as [E|E];
    destruct neg as [|a neg], neu as [|b neu], pos as [|c pos];
    cbn [app In]; try (simpl in E; discriminate E);
    repeat split; intros;
    repeat match goal with
           | H : _ \/ _ |- _ => destruct H
           | H : _ /\ _ |- _ => destruct H
           | H : False |- _ => destruct H
           end;
    try discriminate; try congruence; try tauto; auto.
Qed.

(** ** The extraction stages *)

Lemma firstn_incl {A} (n : nat) (l : list A) (x : A) : In x (firstn n l) -> In x l.
Proof.
  intros H. rewrite <- (firstn_skipn n l). apply in_or_app. now left.
Qed.

Lemma hard_filter_filter (items : list str) :
  hard_filter items = filter survives items.
Proof.
  induction items as [|item rest IH]; [reflexivity|].
  cbn [hard_filter filter]. unfold survives at 1.
  destruct (has_banned negative_banned item); [exact IH|].
  rewrite Nat.ltb_antisym.
  destruct (length (split_ws item) <=? 3); [|exact IH].
  destruct (property_hit item); [exact IH|].
  simpl. now rewrite IH.
Qed.


(** ** Lower case *)







Section Stages.

Variable db : unicode_db.
Variable gw : gateway.

(** Each stage is one call followed by its parser. *)
Lemma build_explanation_run (topic : str) (log : list request) :
  build_explanation db gw topic log =
    (sanitize_explanation db (reply gw log DEEPSEEK_R1 (explanation_prompt topic)),
     log ++ [mk_request DEEPSEEK_R1 (explanation_prompt topic)]).
Proof. reflexivity. Qed.

Lemma extract_negative_run (explanation : str) (log : list request) :
  extract_negative db gw explanation log =
    (parse_negative db (reply gw log GPT_4O_MINI (negative_prompt explanation)),
     log ++ [mk_request GPT_4O_MINI (negative_prompt explanation)]).
Proof. reflexivity. Qed.

Lemma extract_neutral_run (negative : list str) (log : list request) :
  extract_neutral gw negative log =
    (parse_neutral (reply gw log DEEPSEEK_R1 (neutral_prompt negative)),
     log ++ [mk_request DEEPSEEK_R1 (neutral_prompt negative)]).
Proof. reflexivity. Qed.

Lemma extract_positive_run (neutral : list str) (log : list request) :
  extract_positive db gw neutral log =
    (parse_positive db neutral (reply gw log GPT_4O_MINI (positive_prompt neutral)),
     log ++ [mk_request GPT_4O_MINI (positive_prompt neutral)]).
Proof. reflexivity. Qed.


(** C6. The positive list is the filtered response cut to the length of
    the neutral list: never longer, and shorter when the filtered
    response is shorter, since nothing pads it. *)
Theorem extract_positive_length_bound (neutral : list str) (raw : str) :
  length (parse_positive db neutral raw) <= length neutral
  /\ length (parse_positive db neutral raw) =
       Nat.min (length neutral) (length (light_filter db (positive_items raw)))
  /\ length (parse_positive db [lit "a."] []) < length [lit "a."]
  /\ (forall log,
        fst (extract_positive db gw neutral log) =
          parse_positive db neutral (reply gw log GPT_4O_MINI (positive_prompt neutral))).
Proof.
  unfold parse_positive. repeat split.
  - apply firstn_le_length.
  - apply length_firstn.
  - simpl. lia.
Qed.

End Stages.


(** ** The neutral stage *)

Lemma parse_neutral_item (l : str) :
  ends_with_one_dot (rstrip_chars [DOT] (strip l) ++ [DOT]).
Proof.
  exists (rstrip_chars [DOT] (strip l)). split; [reflexivity|].
  unfold endswith_dot, rstrip_chars.
  pose proof (rstrip_by_last (fun c => mem c [DOT]) (strip l)) as H.
  destruct (rev (rstrip_by (fun c => mem c [DOT]) (strip l))) as [|c r];
    [reflexivity|].
  unfold mem in H. simpl in H. now rewrite orb_false_r in H.
Qed.

(** C7. Every item of the neutral list ends with exactly one period:
    the periods that end the line are stripped before one is appended. *)
Theorem extract_neutral_single_period (raw : str) :
  Forall ends_with_one_dot (parse_neutral raw)
  /\ (forall gw negative log,
        Forall ends_with_one_dot (fst (extract_neutral gw negative log))).
Proof.
  assert (forall r, Forall ends_with_one_dot (parse_neutral r)) as H.
  { intros r. unfold parse_neutral. apply Forall_forall. intros item Hin.
    apply in_map_iff in Hin as [l [<- _]]. apply parse_neutral_item. }
  split; [apply H|].
  intros gw negative log. rewrite extract_neutral_run. apply H.
Qed.

Lemma parse_neutral_step (r : str) :
  parse_neutral (lit "a" ++ [LF] ++ r) = lit "a." :: parse_neutral r.
Proof. reflexivity. Qed.

(** C4, as the code has it. The neutral list has one item for each
    non-blank line of the response, so no more items than lines; nothing
    caps it, and every length is returned for some response. *)
Theorem extract_neutral_one_item_per_line (raw : str) :
  length (parse_neutral raw) =
    length (filter (fun l => truthy (strip l)) (splitlines raw))
  /\ length (parse_neutral raw) <= length (splitlines raw)
  /\ (forall n, exists raw', length (parse_neutral raw') = n)
  /\ (forall gw negative log,
        fst (extract_neutral gw negative log) =
          parse_neutral (reply gw log DEEPSEEK_R1 (neutral_prompt negative))).
Proof.
  unfold parse_neutral at 1 2. rewrite length_map. repeat split.
  - apply filter_length_le.
  - intros n. exists (concat (repeat (lit "a" ++ [LF]) n)).
    induction n as [|n IH]; [reflexivity|].
    cbn [repeat concat]. rewrite <- app_assoc, parse_neutral_step.
    cbn [length]. now rewrite IH.
Qed.

(** C4, as stated, fails: a response of nine lines gives nine items,
    also through the stage with a Gateway that answers it. *)
Lemma extract_neutral_nine_items :
  parse_neutral nine_lines
  = [lit "a b."; lit "c d."; lit "e f."; lit "g h."; lit "i j.";
     lit "k l."; lit "m n."; lit "o p."; lit "q r."]
  /\ ~ length (parse_neutral nine_lines) <= 8
  /\ length (fst (extract_neutral (fun _ _ => Some nine_lines)
                    [lit "event horizon"; lit "virtual particle pair"] [])) = 9.
Proof. repeat split. vm_compute. lia. Qed.

(** The scenario of the specification: trailing dots are normalised. *)
Example parse_neutral_scenario :
  parse_neutral (text [lit "particle pairs separate near the horizon";
                       lit "one particle escapes.."])
  = [lit "particle pairs separate near the horizon."; lit "one particle escapes."].
Proof. reflexivity. Qed.

(** ** The orchestrator *)

Section Orchestrator.

Variable db : unicode_db.
Variable gw : gateway.

(** C10. A run makes exactly four requests, in this order: the
    explanation request for the topic, the negative request for the
    explanation obtained, the neutral request for the negative list, the
    positive request for the neutral list; each stage reads the answer to
    its own request, and the diagnostics are computed last, from the
    three lists. This holds whatever the Gateway answers, failures and
    empty answers included. *)
Theorem run_four_calls_in_order (topic : str) (log : list request) :
  let res := fst (run db gw topic log) in
  let rq1 := mk_request DEEPSEEK_R1 (explanation_prompt topic) in
  let rq2 := mk_request GPT_4O_MINI (negative_prompt (Result.explanation res)) in
  let rq3 := mk_request DEEPSEEK_R1 (neutral_prompt (Result.negative res)) in
  let rq4 := mk_request GPT_4O_MINI (positive_prompt (Result.neutral res)) in
  snd (run db gw topic log) = log ++ [rq1; rq2; rq3; rq4]
  /\ Result.topic res = topic
  /\ Result.explanation res =
       sanitize_explanation db (reply gw log DEEPSEEK_R1 (req_prompt rq1))
  /\ Result.negative res =
       parse_negative db (reply gw (log ++ [rq1]) GPT_4O_MINI (req_prompt rq2))
  /\ Result.neutral res =
       parse_neutral (reply gw (log ++ [rq1; rq2]) DEEPSEEK_R1 (req_prompt rq3))
  /\ Result.positive res =
       parse_positive db (Result.neutral res)
         (reply gw (log ++ [rq1; rq2; rq3]) GPT_4O_MINI (req_prompt rq4))
  /\ Result.diagnostics res =
       analyze (Result.negative res) (Result.neutral res) (Result.positive res).
Proof.
  cbv zeta. unfold run, bind.
  rewrite build_explanation_run, extract_negative_run,
    extract_neutral_run, extract_positive_run.
  unfold ret. cbn [fst snd Result.topic Result.explanation Result.negative
                   Result.neutral Result.positive Result.diagnostics req_prompt mk_request].
  rewrite <- !app_assoc. cbn [app].
  repeat split.
Qed.

(** The scenario of the specification: a Gateway that always fails. The
    explanation is a lone period, the lists are empty, and the three
    failure messages are reported without the mismatch message. *)
Example run_gateway_down (topic : str) :
  fst (run db (fun _ _ => None) topic []) =
    Result.make topic [DOT] [] [] []
      [NEGATIVE_FAILED; NEUTRAL_FAILED; POSITIVE_FAILED].
Proof. reflexivity. Qed.

End Orchestrator.

(** ** The property rule of the hard filter *)

Lemma mem_app (c : char) (a b : str) : mem c (a ++ b) = mem c a || mem c b.
Proof. apply existsb_app. Qed.

(** A term without space cannot match across the space that follows a
    text it is not a prefix of. *)
Lemma prefixb_space_guard (q m t : str) :
  mem SPACE q = false -> prefixb q m = false ->
  prefixb (q ++ [SPACE]) (m ++ SPACE :: t) = false.
Proof.
  revert m. induction q as [|a q IH]; intros m Hs Hp; [discriminate|].
  cbn [mem existsb] in Hs. apply orb_false_iff in Hs as [Ha Hs].
  destruct m as [|c m]; cbn [app prefixb].
  - rewrite N.eqb_sym, Ha. reflexivity.
  - cbn [prefixb] in Hp. destruct (N.eqb a c); [|reflexivity].
    simpl in Hp. simpl. now apply IH.
Qed.

Lemma infixb_space_guard (q m t : str) :
  mem SPACE q = false -> infixb q m = false ->
  infixb (q ++ [SPACE]) t = false ->
  infixb (q ++ [SPACE]) (m ++ SPACE :: t) = false.
Proof.
  intros Hs Hm Ht. induction m as [|c m IH].
  - cbn [app infixb]. simpl in Hm. rewrite orb_false_r in Hm.
    pose proof (prefixb_space_guard q [] t Hs Hm) as G. cbn [app] in G.
    rewrite G. exact Ht.
  - cbn [infixb] in Hm. apply orb_false_iff in Hm as [Hp Hm].
    change ((c :: m) ++ SPACE :: t) with (c :: (m ++ SPACE :: t)).
    cbn [infixb].
    change (c :: (m ++ SPACE :: t)) with ((c :: m) ++ SPACE :: t).
    rewrite (prefixb_space_guard q (c :: m) t Hs Hp). now apply IH.
Qed.

Lemma property_hit_spec (item : str) :
  property_hit item = true <->
    In item property_keywords
    \/ exists pk, In pk property_keywords /\ occurs_in (pk ++ [SPACE]) item.
Proof.
  unfold property_hit. rewrite existsb_exists. split.
  - intros [pk [Hin H]]. apply orb_true_iff in H as [H|H].
    + apply str_eqb_eq in H. subst. now left.
    + right. exists pk. split; [exact Hin | now apply infixb_spec].
  - intros [Hin | [pk [Hin H]]].
    + exists item. split; [exact Hin|].
      apply orb_true_iff. left. now apply str_eqb_eq.
    + exists pk. split; [exact Hin|].
      apply orb_true_iff. right. now apply infixb_spec.
Qed.

(** The rule as the code runs it. It discards a candidate that equals a
    property term, or in which a property term is followed by a space,
    and no other; so a bare term is discarded, and a candidate made of a
    modifier free of property terms, a space and the term is kept. *)
Theorem property_rule_exact (m pk : str) :
  In pk property_keywords ->
  has_banned property_keywords m = false ->
  property_hit pk = true
  /\ property_hit (m ++ [SPACE] ++ pk) = false
  /\ (forall item, property_hit item = true <->
        In item property_keywords
        \/ exists pk', In pk' property_keywords /\ occurs_in (pk' ++ [SPACE]) item).
Proof.
  intros Hpk Hm. split; [|split].
  - apply property_hit_spec. now left.
  - destruct (property_hit (m ++ [SPACE] ++ pk)) eqn:E; [|reflexivity].
    exfalso. unfold property_hit in E.
    apply existsb_exists in E as [pk' [Hpk' H]].
    assert (mem SPACE pk' = false /\ infixb (pk' ++ [SPACE]) pk = false) as [Hs Hi].
    { destruct Hpk as [<-|[<-|[<-|[]]]]; destruct Hpk' as [<-|[<-|[<-|[]]]];
        split; reflexivity. }
    apply orb_true_iff in H as [H|H].
    + apply str_eqb_eq in H. rewrite H, mem_app in Hs.
      apply orb_false_iff in Hs as [_ Hs]. discriminate Hs.
    + assert (infixb pk' m = false) as Hn.
      { unfold has_banned in Hm. destruct (infixb pk' m) eqn:En; [|reflexivity].
        rewrite <- Hm. symmetry. apply existsb_exists. now exists pk'. }
      cbn [app] in H. rewrite (infixb_space_guard pk' m pk Hs Hn Hi) in H.
      discriminate H.
  - apply property_hit_spec.
Qed.

Lemma property_rule_exact_witness :
  In (lit "energy") property_keywords
  /\ has_banned property_keywords (lit "kinetic") = false
  /\ property_hit (lit "energy") = true
  /\ property_hit (lit "kinetic energy") = false.
Proof.
  assert (In (lit "energy") property_keywords) as H1 by (right; left; reflexivity).
  assert (has_banned property_keywords (lit "kinetic") = false) as H2 by reflexivity.
  destruct (property_rule_exact (lit "kinetic") (lit "energy") H1 H2) as (A & B & _).
  repeat split; assumption.
Defined.

(** C8. The code at the failing input. In "high energy photon" the
    property term has its modifier before it and does not stand alone;
    the test [pk + " " in item] still matches, and the rule written for
    property words that appear alone discards the candidate, which no
    other rule of the filter would. *)
Lemma property_rule_rejects_modified_term :
  modified_term (lit "energy") (lit "high energy photon") = true
  /\ property_hit (lit "high energy photon") = true
  /\ has_banned negative_banned (lit "high energy photon") = false
  /\ length (split_ws (lit "high energy photon")) = 3
  /\ parse_negative ascii_db (lit "high energy photon") = [].
Proof. repeat split. Qed.

(** ** Splitting, joining and deleting *)

Lemma split_on_app_last (sep : char) (p : str) (d : char) :
  N.eqb d sep = false ->
  exists ls l, split_on sep p = ls ++ [l]
               /\ split_on sep (p ++ [d]) = ls ++ [l ++ [d]].
Proof.
  intros Hd. induction p as [|c p (ls & l & E1 & E2)].
  - exists [], []. simpl. now rewrite Hd.
  - cbn [app split_on]. rewrite E1, E2. destruct (N.eqb c sep).
    + now exists ([] :: ls), l.
    + destruct ls as [|x ls]; cbn [app].
      * now exists [], (c :: l).
      * now exists ((c :: x) :: ls), l.
Qed.

Lemma split_on_no_sep (sep : char) (s : str) (l : str) :
  In l (split_on sep s) -> ~ In sep l.
Proof.
  revert l. induction s as [|c s IH]; intros l; cbn [split_on].
  - intros [<-|[]] [].
  - destruct (N.eqb c sep) eqn:E.
    + intros [<-|H]; [intros [] | now apply IH].
    + destruct (split_on sep s) as [|x xs].
      * intros [<-|[]] [H|[]]. subst. now rewrite N.eqb_refl in E.
      * intros [<-|H].
        -- intros [H|H]; [subst; now rewrite N.eqb_refl in E|].
           apply (IH x); [now left | exact H].
        -- apply IH. now right.
Qed.

Lemma split_on_single (sep : char) (s : str) :
  ~ In sep s -> split_on sep s = [s].
Proof.
  induction s as [|c s IH]; intros H; [reflexivity|].
  cbn [split_on]. destruct (N.eqb c sep) eqn:E.
  - apply N.eqb_eq in E. subst. destruct H. now left.
  - rewrite IH; [reflexivity|]. intros Hin. apply H. now right.
Qed.

Lemma join_app_last (sep : str) (L : list str) (x : str) :
  exists pre, join sep (L ++ [x]) = pre ++ x.
Proof.
  induction L as [|a L [pre E]].
  - now exists [].
  - cbn [app join]. destruct (L ++ [x]) as [|y ys] eqn:EL.
    + destruct L; discriminate EL.
    + rewrite E. exists (a ++ sep ++ pre). now rewrite <- !app_assoc.
Qed.

Lemma join_In (sep : str) (L : list str) (c : char) :
  In c (join sep L) -> In c sep \/ exists l, In l L /\ In c l.
Proof.
  induction L as [|a L IH]; cbn [join]; [intros []|].
  destruct L as [|b L].
  - intros H. right. exists a. split; [now left | exact H].
  - intros H. apply in_app_or in H as [H|H].
    + right. exists a. split; [now left | exact H].
    + apply in_app_or in H as [H|H]; [now left|].
      destruct (IH H) as [H'|[l [Hl Hc]]]; [now left|].
      right. exists l. split; [now right | exact Hc].
Qed.

Lemma remove_go_In (b : str) (k : nat) (s : str) (c : char) :
  In c (remove_go b k s) -> In c s.
Proof.
  revert k. induction s as [|d s IH]; intros k; cbn [remove_go]; [tauto|].
  destruct k as [|k].
  - destruct (prefixb b (d :: s)).
    + intros H. right. now apply IH in H.
    + intros [H|H]; [now left | right; now apply IH in H].
  - intros H. right. now apply IH in H.
Qed.

Lemma prefixb_length (b X : str) (d : char) :
  prefixb b (X ++ [d]) = true -> mem d b = false -> length b <= length X.
Proof.
  revert X. induction b as [|a b IH]; intros X Hp Hm; [simpl; lia|].
  cbn [mem existsb] in Hm. apply orb_false_iff in Hm as [Ha Hm].
  destruct X as [|x X]; cbn [app prefixb] in Hp.
  - rewrite N.eqb_sym, Ha in Hp. discriminate Hp.
  - apply andb_true_iff in Hp as [_ Hp]. simpl. apply le_n_S. now apply IH.
Qed.

(** Deleting a term leaves a last character the term does not hold. *)
Lemma remove_go_keeps_last (b : str) (d : char) :
  truthy b = true -> mem d b = false ->
  forall P k, k <= length P -> exists P', remove_go b k (P ++ [d]) = P' ++ [d].
Proof.
  intros Hb Hm. induction P as [|c P IH]; intros k Hk.
  - assert (k = 0) as -> by (simpl in Hk; lia). cbn [app remove_go].
    destruct b as [|a b]; [discriminate Hb|].
    cbn [mem existsb] in Hm. apply orb_false_iff in Hm as [Ha _].
    cbn [prefixb]. rewrite N.eqb_sym, Ha. now exists [].
  - cbn [app remove_go]. destruct k as [|k].
    + destruct (prefixb b (c :: P ++ [d])) eqn:E.
      * apply (prefixb_length b (c :: P)) in E; [|exact Hm].
        apply IH. simpl in E. lia.
      * destruct (IH 0) as [P' E']; [lia|]. rewrite E'. now exists (c :: P').
    + apply IH. simpl in Hk. lia.
Qed.

Lemma remove_all_absent (b s : str) : infixb b s = false -> remove_all b s = s.
Proof.
  unfold remove_all. induction s as [|c s IH]; intros H; [reflexivity|].
  cbn [infixb] in H. apply orb_false_iff in H as [Hp Hi].
  cbn [remove_go]. rewrite Hp. now rewrite IH.
Qed.

(** ** The explanation sanitizer *)

Lemma scrub_keeps_last (d : char) (banned : list str) :
  Forall (fun b => truthy b = true /\ mem d b = false) banned ->
  forall p, exists q, scrub banned (p ++ [d]) = q ++ [d].
Proof.
  unfold scrub. induction 1 as [|b banned [Hb Hm] _ IH]; intros p; cbn [fold_left].
  - now exists p.
  - destruct (remove_go_keeps_last b d Hb Hm p 0) as [P' E]; [lia|].
    unfold remove_all. rewrite E. apply IH.
Qed.

Lemma scrub_In (banned : list str) (s : str) (c : char) :
  In c (scrub banned s) -> In c s.
Proof.
  unfold scrub. revert s. induction banned as [|b banned IH]; intros s; cbn [fold_left].
  - tauto.
  - intros H. apply IH in H. unfold remove_all in H. now apply remove_go_In in H.
Qed.

Lemma scrub_absent (banned : list str) (s : str) :
  has_banned banned s = false -> scrub banned s = s.
Proof.
  unfold scrub, has_banned. induction banned as [|b banned IH]; cbn [fold_left existsb].
  - reflexivity.
  - intros H. apply orb_false_iff in H as [Hb H].
    rewrite (remove_all_absent b s Hb). now apply IH.
Qed.

Lemma explanation_banned_plain :
  Forall (fun b => truthy b = true /\ mem DOT b = false) explanation_banned.
Proof. repeat constructor. Qed.

(** The lines of a text that ends with a period, collapsed, still end
    with it. *)
Lemma collapse_keeps_dot (p : str) :
  exists q,
    join [SPACE] (map strip (filter (fun l => truthy (strip l))
                                     (split_on LF (p ++ [DOT])))) = q ++ [DOT].
Proof.
  destruct (split_on_app_last LF p DOT) as (ls & l & _ & E); [reflexivity|].
  rewrite E, filter_app, map_app.
  assert (strip (l ++ [DOT]) = dropwhile is_space l ++ [DOT]) as Es
    by (apply strip_by_app_last; reflexivity).
  assert (truthy (strip (l ++ [DOT])) = true) as Ht
    by (rewrite Es; destruct (dropwhile is_space l); reflexivity).
  cbn [filter]. rewrite Ht. cbn [map]. rewrite Es.
  destruct (join_app_last [SPACE]
              (map strip (filter (fun l => truthy (strip l)) ls))
              (dropwhile is_space l ++ [DOT])) as [pre Ej].
  rewrite Ej. exists (pre ++ dropwhile is_space l). now rewrite <- app_assoc.
Qed.

Lemma collapse_no_newline (e : str) :
  ~ In LF (join [SPACE] (map strip (filter (fun l => truthy (strip l))
                                            (split_on LF e)))).
Proof.
  intros H. apply join_In in H as [H | [l [Hl Hc]]].
  - destruct H as [H|[]]. discriminate H.
  - apply in_map_iff in Hl as [l0 [<- Hl0]]. apply filter_In in Hl0 as [Hl0 _].
    apply strip_by_In in Hc. now apply (split_on_no_sep LF e l0).
Qed.

Lemma collapse_single (t : str) :
  ~ In LF t -> strip t = t -> truthy t = true ->
  join [SPACE] (map strip (filter (fun l => truthy (strip l)) (split_on LF t))) = t.
Proof.
  intros Hn Hs Ht. rewrite (split_on_single LF t Hn).
  cbn [filter]. rewrite Hs, Ht. cbn [map join]. exact Hs.
Qed.

Section Sanitizer.

Variable db : unicode_db.

Lemma is_word_LF : is_word db LF = false.
Proof. reflexivity. Qed.

Lemma is_word_DOT : is_word db DOT = false.
Proof. reflexivity. Qed.

(** A run of word characters that reaches the end is matched whole. *)
Lemma word_run_end_match (w e : str) :
  forallb (is_word db) w = true -> w <> [] -> e = [] \/ e = [LF] ->
  word_run_end db (w ++ e) = Some e.
Proof.
  intros Hw Hne He. induction w as [|c w IH]; [now destruct Hne|].
  cbn [forallb] in Hw. apply andb_true_iff in Hw as [Hc Hw].
  cbn [app word_run_end]. rewrite Hc. destruct w as [|c' w].
  - cbn [app]. destruct He as [->| ->]; reflexivity.
  - rewrite IH; [reflexivity | exact Hw | discriminate].
Qed.

(** A character that is not a word character stops the match, unless it
    is the newline that ends the text. *)
Lemma word_run_end_blocked (p : str) (d : char) (tail : str) :
  is_word db d = false -> (d = LF -> tail <> []) ->
  word_run_end db (p ++ d :: tail) = None.
Proof.
  intros Hd Hlf. induction p as [|c p IH]; cbn [app word_run_end].
  - now rewrite Hd.
  - destruct (is_word db c); [|reflexivity]. rewrite IH.
    destruct p as [|c' p]; cbn [app at_end].
    + destruct tail as [|t ts]; [|reflexivity].
      destruct (N.eqb d LF) eqn:E; [|reflexivity].
      apply N.eqb_eq in E. now destruct (Hlf E).
    + destruct (p ++ d :: tail) eqn:E; [|reflexivity].
      destruct p; discriminate E.
Qed.

Lemma re_sub_go_decomp (w e : str) :
  forallb (is_word db) w = true -> e = [] \/ e = [LF] ->
  forall p prev, blocked db p (w ++ e) -> (p = [] -> w <> [] -> prev = false) ->
  re_sub_go db prev (p ++ w ++ e) = p ++ e.
Proof.
  intros Hw He. induction p as [|c p IH]; intros prev Hb Hprev.
  - cbn [app]. destruct w as [|c w].
    + destruct He as [->| ->]; [reflexivity|].
      cbn [app re_sub_go]. rewrite is_word_LF, andb_false_r. reflexivity.
    + rewrite (Hprev eq_refl) by discriminate.
      pose proof Hw as Hw'. cbn [forallb] in Hw'.
      apply andb_true_iff in Hw' as [Hc _].
      cbn [app re_sub_go]. rewrite Hc. cbn [negb andb].
      change (c :: w ++ e) with ((c :: w) ++ e).
      rewrite word_run_end_match; [reflexivity | exact Hw | discriminate | exact He].
  - destruct Hb as [Hb | (p0 & d & Ep & Hd & Hlf)]; [discriminate Hb|].
    assert (word_run_end db ((c :: p) ++ w ++ e) = None) as Hnone.
    { rewrite Ep, <- app_assoc. cbn [app]. now apply word_run_end_blocked. }
    assert (re_sub_go db prev ((c :: p) ++ w ++ e)
            = c :: re_sub_go db (is_word db c) (p ++ w ++ e)) as Hstep.
    { cbn [app re_sub_go]. cbn [app] in Hnone. rewrite Hnone.
      destruct (negb prev && is_word db c); reflexivity. }
    rewrite Hstep. cbn [app]. f_equal. apply IH.
    + destruct p0 as [|c0 p0]; cbn [app] in Ep; injection Ep as -> ->.
      * now left.
      * right. now exists p0, d.
    + intros -> _. destruct p0 as [|c0 p0]; cbn [app] in Ep.
      * injection Ep as ->. exact Hd.
      * injection Ep as _ Ep. destruct p0; discriminate Ep.
Qed.

Lemma rstrip_by_decomp (f : char -> bool) (body : str) :
  exists w, body = rstrip_by f body ++ w /\ forallb f w = true.
Proof.
  unfold rstrip_by. destruct (dropwhile_suffix f (rev body)) as [a [Ha Hf]].
  exists (rev a). split.
  - rewrite <- rev_app_distr, <- Ha. symmetry. apply rev_involutive.
  - apply forallb_forall. intros x Hx. apply in_rev in Hx.
    now apply (proj1 (forallb_forall f a) Hf).
Qed.

Lemma rstrip_by_ends (f : char -> bool) (body : str) :
  rstrip_by f body = []
  \/ exists p0 d, rstrip_by f body = p0 ++ [d] /\ f d = false.
Proof.
  pose proof (rstrip_by_last f body) as H.
  destruct (rev (rstrip_by f body)) as [|c r] eqn:E.
  - left. apply (f_equal (@rev char)) in E. now rewrite rev_involutive in E.
  - right. exists (rev r), c. split; [|exact H].
    apply (f_equal (@rev char)) in E. now rewrite rev_involutive in E.
Qed.

(** The substitution takes off the trailing run of word characters, and
    nothing else. *)
Lemma re_sub_trailing_word_spec (s : str) :
  re_sub_trailing_word db s = strip_trailing_word_run db s.
Proof.
  unfold re_sub_trailing_word, strip_trailing_word_run.
  destruct (rev s) as [|c b] eqn:E.
  - apply (f_equal (@rev char)) in E. rewrite rev_involutive in E. now subst s.
  - apply (f_equal (@rev char)) in E. rewrite rev_involutive in E.
    cbn [rev] in E. destruct (N.eqb c LF) eqn:Ec.
    + apply N.eqb_eq in Ec. subst c.
      destruct (rstrip_by_decomp (is_word db) (rev b)) as [w [Hb Hw]].
      rewrite E. rewrite Hb at 1. rewrite <- app_assoc.
      apply re_sub_go_decomp; [exact Hw | now right | | reflexivity].
      destruct (rstrip_by_ends (is_word db) (rev b)) as [H0 | (p0 & d & Hp & Hd)].
      * now left.
      * right. exists p0, d. repeat split; [exact Hp | exact Hd |].
        intros _ H. destruct w; discriminate H.
    + destruct (rstrip_by_decomp (is_word db) s) as [w [Hs Hw]].
      rewrite Hs at 1. rewrite <- (app_nil_r (rstrip_by (is_word db) s)) at 2.
      rewrite <- (app_nil_r w) at 1.
      apply re_sub_go_decomp; [exact Hw | now left | | reflexivity].
      destruct (rstrip_by_ends (is_word db) s) as [H0 | (p0 & d & Hp & Hd)].
      * now left.
      * right. exists p0, d. repeat split; [exact Hp | exact Hd |].
        intros Hlf H. rewrite app_nil_r in H. subst w d.
        rewrite app_nil_r, Hp, E in Hs.
        apply app_inj_tail in Hs as [_ Hs]. subst c. discriminate Ec.
Qed.

Lemma re_sub_keeps_punctuated (p : str) (d : char) :
  is_word db d = false -> d <> LF ->
  re_sub_trailing_word db (p ++ [d]) = p ++ [d].
Proof.
  intros Hd Hlf. unfold re_sub_trailing_word.
  pose proof (re_sub_go_decomp [] [] eq_refl (or_introl eq_refl) (p ++ [d]) false) as H.
  cbn [app] in H. rewrite !app_nil_r in H. apply H; [|reflexivity].
  right. exists p, d. repeat split; [exact Hd | intros E; now destruct (Hlf E)].
Qed.

Lemma enforce_dot (e : str) :
  exists p, (if endswith_dot e then e else e ++ [DOT]) = p ++ [DOT].
Proof.
  destruct (endswith_dot e) eqn:E.
  - now apply endswith_dot_inv.
  - now exists e.
Qed.

Lemma sanitize_ends_with_dot (s : str) :
  exists p, sanitize_explanation db s = p ++ [DOT].
Proof.
  unfold sanitize_explanation. cbv zeta.
  destruct (enforce_dot (strip (re_sub_trailing_word db s))) as [p ->].
  destruct (collapse_keeps_dot p) as [q ->].
  destruct (scrub_keeps_last DOT explanation_banned explanation_banned_plain q) as [r ->].
  unfold strip. rewrite strip_by_app_last by reflexivity.
  now exists (dropwhile is_space r).
Qed.

Lemma sanitize_no_newline (s : str) : ~ In LF (sanitize_explanation db s).
Proof.
  unfold sanitize_explanation. cbv zeta. intros H.
  apply strip_by_In, scrub_In in H. exact (collapse_no_newline _ H).
Qed.

Lemma sanitize_stripped (s : str) :
  strip (sanitize_explanation db s) = sanitize_explanation db s.
Proof. unfold sanitize_explanation. cbv zeta. apply strip_idem. Qed.

(** A clean one-line text that ends with a period is left as it is. *)
Lemma sanitize_fixed (t p : str) :
  t = p ++ [DOT] -> ~ In LF t -> strip t = t ->
  has_banned explanation_banned t = false ->
  sanitize_explanation db t = t.
Proof.
  intros Et Hn Hs Hb. unfold sanitize_explanation. cbv zeta.
  assert (re_sub_trailing_word db t = t) as Hr
    by (rewrite Et; apply re_sub_keeps_punctuated; [reflexivity | discriminate]).
  rewrite Hr, Hs.
  assert (endswith_dot t = true) as -> by (rewrite Et; apply endswith_dot_app).
  rewrite collapse_single; [|exact Hn|exact Hs|].
  - rewrite scrub_absent by exact Hb. exact Hs.
  - rewrite Et. destruct p; reflexivity.
Qed.

(** C2, as the code has it. The truncation step takes off the trailing
    run of word characters of the text (its unfinished last word), a
    final newline staying in place, and nothing else: a text that ends
    with a period keeps its last word. *)
Theorem truncation_removes_trailing_word_run (s : str) :
  re_sub_trailing_word db s = strip_trailing_word_run db s
  /\ re_sub_trailing_word db (s ++ [DOT]) = s ++ [DOT].
Proof.
  split.
  - apply re_sub_trailing_word_spec.
  - apply re_sub_keeps_punctuated; [reflexivity | discriminate].
Qed.

(** C3, as the code has it. The sanitized explanation always ends with a
    period, so it is never empty; for the empty answer of a failed model
    it is the lone period. *)
Theorem sanitized_explanation_never_empty (s : str) :
  (exists p, sanitize_explanation db s = p ++ [DOT])
  /\ sanitize_explanation db s <> []
  /\ sanitize_explanation db [] = [DOT].
Proof.
  destruct (sanitize_ends_with_dot s) as [p E]. repeat split.
  - now exists p.
  - rewrite E. destruct p; discriminate.
Qed.

(** C9. When no banned term occurs in the sanitized text, sanitizing it
    again changes nothing. *)
Theorem sanitize_idempotent (s : str) :
  has_banned explanation_banned (sanitize_explanation db s) = false ->
  sanitize_explanation db (sanitize_explanation db s) = sanitize_explanation db s.
Proof.
  intros Hb. destruct (sanitize_ends_with_dot s) as [p E].
  apply (sanitize_fixed _ p).
  - exact E.
  - apply sanitize_no_newline.
  - apply sanitize_stripped.
  - exact Hb.
Qed.

End Sanitizer.

(** On ASCII text the Unicode tables are never consulted: the
    evaluations below hold for every database. *)
Lemma ascii_text_any_db (db : unicode_db) :
  sanitize_explanation db (lit "Pairs form. One escapes.")
    = lit "Pairs form. One escapes."
  /\ sanitize_explanation db [] = lit "."
  /\ parse_negative db (lit "high energy photon") = []
  /\ sanitize_explanation db (lit "musmusicic.") = lit "music.".
Proof. repeat split. Qed.

Lemma sanitize_idempotent_witness :
  has_banned explanation_banned
    (sanitize_explanation ascii_db (lit "The hole radiates. Pairs form at the quantu")) = false
  /\ sanitize_explanation ascii_db
       (sanitize_explanation ascii_db (lit "The hole radiates. Pairs form at the quantu"))
     = sanitize_explanation ascii_db (lit "The hole radiates. Pairs form at the quantu").
Proof.
  split; [reflexivity|].
  apply (sanitize_idempotent ascii_db (lit "The hole radiates. Pairs form at the quantu")).
  reflexivity.
Defined.

(** Without the proviso idempotence fails: deleting "music" from
    "musmusicic." leaves "music.", which a second pass empties. *)
Example sanitize_exposes_banned_term :
  sanitize_explanation ascii_db (lit "musmusicic.") = lit "music."
  /\ sanitize_explanation ascii_db (lit "music.") = lit ".".
Proof. split; reflexivity. Qed.

(** C2, as stated, fails: a text that ends with a period loses no token. *)
Lemma sanitizer_keeps_punctuated_last_word :
  sanitize_explanation ascii_db (lit "Pairs form. One escapes.")
    = lit "Pairs form. One escapes."
  /\ split_ws (strip (re_sub_trailing_word ascii_db (lit "Pairs form. One escapes.")))
     = [lit "Pairs"; lit "form."; lit "One"; lit "escapes."]
  /\ split_ws (strip (re_sub_trailing_word ascii_db (lit "Pairs form. One escapes.")))
     <> without_last_token (lit "Pairs form. One escapes.").
Proof. repeat split. intros H. vm_compute in H. discriminate H. Qed.

(** The scenario of the specification: the fragment "quantu" is dropped. *)
Example sanitize_scenario :
  sanitize_explanation ascii_db (lit "The hole radiates. Pairs form at the quantu")
  = lit "The hole radiates. Pairs form at the.".
Proof. reflexivity. Qed.

(** C3, as stated, fails: for the empty answer the explanation is ".",
    also through the explanation stage with a Gateway that fails or
    answers nothing. *)
Lemma sanitized_empty_answer_is_period :
  sanitize_explanation ascii_db [] = lit "."
  /\ sanitize_explanation ascii_db [] <> []
  /\ fst (build_explanation ascii_db (fun _ _ => None)
            (lit "How a black hole evaporates through Hawking radiation.") []) = lit "."
  /\ fst (build_explanation ascii_db (fun _ _ => Some [])
            (lit "How a black hole evaporates through Hawking radiation.") []) = lit ".".
Proof. repeat split. intros H. discriminate H. Qed.

(** ** Lines of a response *)

(** The lines hold characters of the text only. *)
Lemma splitlines_go_Forall (P : char -> Prop) (s : str) :
  forall after_cr cur, Forall P cur -> Forall P s ->
  Forall (Forall P) (splitlines_go after_cr cur s).
Proof.
  induction s as [|c s IH]; intros after_cr cur Hc Hs; cbn [splitlines_go].
  - destruct cur; constructor; [|constructor].
    apply Forall_rev. exact Hc.
  - inversion Hs as [|? ? Pc Hs']; subst.
    destruct (after_cr && N.eqb c LF); [now apply IH|].
    destruct (is_linebreak c).
    + constructor; [apply Forall_rev; exact Hc | apply IH; [constructor | exact Hs']].
    + apply IH; [now constructor | exact Hs'].
Qed.

Lemma splitlines_Forall (P : char -> Prop) (s : str) :
  Forall P s -> Forall (Forall P) (splitlines s).
Proof. intros H. apply splitlines_go_Forall; [constructor | exact H]. Qed.

(** No line holds a line boundary. *)
Lemma splitlines_go_no_linebreak (s : str) :
  forall after_cr cur, no_linebreak cur ->
  Forall no_linebreak (splitlines_go after_cr cur s).
Proof.
  unfold no_linebreak.
  induction s as [|c s IH]; intros after_cr cur Hc; cbn [splitlines_go].
  - destruct cur; constructor; [|constructor]. apply Forall_rev. exact Hc.
  - destruct (after_cr && N.eqb c LF); [now apply IH|].
    destruct (is_linebreak c) eqn:E.
    + constructor; [apply Forall_rev; exact Hc | apply IH; constructor].
    + apply IH. now constructor.
Qed.

Lemma splitlines_no_linebreak (s : str) : Forall no_linebreak (splitlines s).
Proof. apply splitlines_go_no_linebreak. constructor. Qed.

(** Joining lines without boundary and splitting again gives them back. *)
Lemma splitlines_go_line (x : str) :
  no_linebreak x -> forall cur rest,
  splitlines_go false cur (x ++ rest) = splitlines_go false (rev x ++ cur) rest.
Proof.
  unfold no_linebreak. induction 1 as [|c x Hc _ IH]; intros cur rest; [reflexivity|].
  cbn [app splitlines_go andb]. rewrite Hc, IH. cbn [rev]. now rewrite <- app_assoc.
Qed.

Lemma splitlines_join (L : list str) :
  Forall (fun l => no_linebreak l /\ truthy l = true) L ->
  splitlines (join [LF] L) = L.
Proof.
  unfold splitlines. induction 1 as [|x L [Hx Hne] HL IH]; [reflexivity|].
  cbn [join]. destruct L as [|y L].
  - rewrite <- (app_nil_r x) at 1. rewrite splitlines_go_line by exact Hx.
    rewrite app_nil_r. cbn [splitlines_go].
    destruct (rev x) eqn:E.
    + apply (f_equal (@rev char)) in E. rewrite rev_involutive in E.
      subst x. discriminate Hne.
    + rewrite <- E. now rewrite rev_involutive.
  - rewrite splitlines_go_line by exact Hx. rewrite app_nil_r.
    cbn [app splitlines_go andb]. change (is_linebreak LF) with true. cbv iota.
    rewrite rev_involutive. change (N.eqb LF CR) with false. now rewrite IH.
Qed.

Lemma strip_by_all (f : char -> bool) (s : str) :
  forallb f s = true -> strip_by f s = [].
Proof.
  intros H. unfold strip_by, lstrip_by, rstrip_by.
  assert (dropwhile f s = []) as ->; [|reflexivity].
  induction s as [|c s IH]; [reflexivity|].
  cbn [forallb] in H. apply andb_true_iff in H as [Hc H].
  cbn [dropwhile]. rewrite Hc. now apply IH.
Qed.

Lemma filter_none {A} (f : A -> bool) (l : list A) :
  Forall (fun x => f x = false) l -> filter f l = [].
Proof.
  induction 1 as [|x l Hx _ IH]; [reflexivity|]. cbn [filter]. now rewrite Hx.
Qed.

(** A blank response has no line that counts. *)
Lemma blank_no_lines (raw : str) :
  blank raw = true -> filter (fun l => truthy (strip l)) (splitlines raw) = [].
Proof.
  intros H. apply filter_none.
  assert (Forall (fun c => is_space c = true) raw) as Hs
    by (apply Forall_forall; exact (proj1 (forallb_forall is_space raw) H)).
  apply splitlines_Forall in Hs.
  eapply Forall_impl; [|exact Hs]. intros l Hl. cbv beta.
  unfold strip. rewrite strip_by_all; [reflexivity|].
  apply forallb_forall. exact (proj1 (Forall_forall _ l) Hl).
Qed.

(** ** No signal from the model *)

Lemma reply_silent (gw : gateway) :
  silent gw -> forall log model prompt, reply gw log model prompt = [].
Proof.
  intros H log model prompt. unfold reply.
  specialize (H log {| req_model := model; req_prompt := prompt; req_max_tokens := 500 |}).
  destruct (gw log _) as [content|]; [|reflexivity].
  unfold strip. now apply strip_by_all.
Qed.

(** X1. What [call] returns has no whitespace around it, whatever the
    service answers, and the call adds its one request to the log. *)
Theorem call_answer_stripped (gw : gateway) (model prompt : str) (log : list request) :
  strip (fst (call gw model prompt log)) = fst (call gw model prompt log)
  /\ snd (call gw model prompt log) = log ++ [mk_request model prompt].
Proof.
  split; [|reflexivity]. unfold call. cbn [fst].
  destruct (gw log _) as [content|]; [apply strip_idem | reflexivity].
Qed.

(** X2. A blank response, like the empty string of a failed call, gives
    an empty list in each of the three extraction stages. *)
Theorem blank_response_gives_nothing (db : unicode_db) (neutral : list str) (raw : str) :
  blank raw = true ->
  parse_negative db raw = []
  /\ parse_neutral raw = []
  /\ parse_positive db neutral raw = [].
Proof.
  intros H. unfold parse_negative, negative_items, parse_neutral,
    parse_positive, positive_items.
  rewrite (blank_no_lines raw H). cbn [map hard_filter light_filter].
  now rewrite !firstn_nil.
Qed.

Lemma blank_response_gives_nothing_witness :
  blank [SPACE; LF; TAB; CR; LF] = true
  /\ parse_negative ascii_db [SPACE; LF; TAB; CR; LF] = []
  /\ parse_neutral [SPACE; LF; TAB; CR; LF] = []
  /\ parse_positive ascii_db [lit "a."] [SPACE; LF; TAB; CR; LF] = [].
Proof.
  split; [reflexivity|].
  apply (blank_response_gives_nothing ascii_db [lit "a."] [SPACE; LF; TAB; CR; LF]).
  reflexivity.
Defined.

(** X3. With a Gateway that only fails or answers blank text, a run
    still makes its four requests and returns the topic, a lone period
    as explanation, three empty lists and the three failure messages,
    without the mismatch message. *)
Theorem run_silent_gateway (db : unicode_db) (gw : gateway) (topic : str)
    (log : list request) :
  silent gw ->
  fst (run db gw topic log) = failure_result topic
  /\ snd (run db gw topic log) =
       log ++ [ mk_request DEEPSEEK_R1 (explanation_prompt topic);
                mk_request GPT_4O_MINI (negative_prompt [DOT]);
                mk_request DEEPSEEK_R1 (neutral_prompt []);
                mk_request GPT_4O_MINI (positive_prompt []) ].
Proof.
  intros H. pose proof (reply_silent gw H) as R.
  unfold run, bind.
  rewrite build_explanation_run, R.
  change (sanitize_explanation db []) with [DOT].
  rewrite extract_negative_run, R. change (parse_negative db []) with (@nil str).
  rewrite extract_neutral_run, R. change (parse_neutral []) with (@nil str).
  rewrite extract_positive_run, R. change (parse_positive db [] []) with (@nil str).
  unfold ret. cbn [fst snd]. rewrite <- !app_assoc. split; reflexivity.
Qed.

Lemma run_silent_gateway_witness :
  silent (fun _ _ => Some [SPACE; LF])
  /\ fst (run ascii_db (fun _ _ => Some [SPACE; LF]) (lit "tides") [])
     = failure_result (lit "tides").
Proof.
  assert (silent (fun _ _ => Some [SPACE; LF])) as H by (intros log rq; reflexivity).
  split; [exact H|].
  exact (proj1 (run_silent_gateway ascii_db (fun _ _ => Some [SPACE; LF])
                  (lit "tides") [] H)).
Defined.

(** ** More on the negative and positive filters *)



(** X5. No item of the negative list is a bare property term, and in
    none is a property term followed by a space. *)
Theorem extract_negative_no_bare_property (db : unicode_db) (raw : str) :
  Forall (fun item =>
            ~ In item property_keywords
            /\ (forall pk, In pk property_keywords ->
                  ~ occurs_in (pk ++ [SPACE]) item))
         (parse_negative db raw).
Proof.
  unfold parse_negative. rewrite hard_filter_filter.
  apply Forall_forall. intros item Hin.
  apply firstn_incl, filter_In in Hin as [_ Hs].
  unfold survives in Hs. apply andb_true_iff in Hs as [_ Hp].
  apply negb_true_iff in Hp.
  split.
  - intros Hk. assert (property_hit item = true) as E
      by (apply property_hit_spec; now left). congruence.
  - intros pk Hk Ho. assert (property_hit item = true) as E
      by (apply property_hit_spec; right; now exists pk). congruence.
Qed.

Lemma ascii_lower_plain (c : char) :
  is_ascii c = true ->
  is_ascii (ascii_lower c) && negb (ascii_upper (ascii_lower c)) = true.
Proof.
  unfold is_ascii, ascii_lower, ascii_upper, in_range. intros H.
  apply N.ltb_lt in H.
  destruct (N.leb_spec 65 c); destruct (N.leb_spec c 90); cbn [andb];
    repeat match goal with
           | |- context [N.ltb ?a ?b] => destruct (N.ltb_spec a b)
           | |- context [N.leb ?a ?b] => destruct (N.leb_spec a b)
           end; cbn [andb negb]; try reflexivity; lia.
Qed.

(** X6. When the response is ASCII text, every item of the negative
    list is ASCII text without capital letters. *)
Theorem extract_negative_ascii_lowercase (db : unicode_db) (raw : str) :
  forallb is_ascii raw = true ->
  Forall (fun item =>
            forallb (fun c => is_ascii c && negb (ascii_upper c)) item = true)
         (parse_negative db raw).
Proof.
  intros H. unfold parse_negative. rewrite hard_filter_filter.
  apply Forall_forall. intros item Hin.
  apply firstn_incl, filter_In in Hin as [Hitem _].
  unfold negative_items in Hitem. apply in_map_iff in Hitem as [line [<- Hl]].
  apply filter_In in Hl as [Hl _].
  assert (Forall (fun c => is_ascii c = true) raw) as Hr
    by (apply Forall_forall; exact (proj1 (forallb_forall is_ascii raw) H)).
  apply splitlines_Forall in Hr.
  pose proof (proj1 (Forall_forall _ _) Hr line Hl) as Hline.
  assert (forallb is_ascii (strip_chars bullet_chars line) = true) as Hs.
  { apply forallb_forall. intros c Hc. apply strip_by_In in Hc.
    exact (proj1 (Forall_forall _ line) Hline c Hc). }
  unfold lower. rewrite Hs. apply forallb_forall. intros c Hc.
  apply in_map_iff in Hc as [c0 [<- Hc0]]. apply ascii_lower_plain.
  exact (proj1 (forallb_forall _ _) Hs c0 Hc0).
Qed.

Lemma extract_negative_ascii_lowercase_witness :
  forallb is_ascii (text [lit "- Event Horizon"; lit "* Virtual Particle Pair"]) = true
  /\ parse_negative ascii_db (text [lit "- Event Horizon"; lit "* Virtual Particle Pair"])
     = [lit "event horizon"; lit "virtual particle pair"]
  /\ Forall (fun item =>
               forallb (fun c => is_ascii c && negb (ascii_upper c)) item = true)
            (parse_negative ascii_db
               (text [lit "- Event Horizon"; lit "* Virtual Particle Pair"])).
Proof.
  split; [reflexivity|]. split; [reflexivity|].
  apply (extract_negative_ascii_lowercase ascii_db
           (text [lit "- Event Horizon"; lit "* Virtual Particle Pair"])).
  reflexivity.
Defined.

(** ** The result of a run *)

Lemma analyze_In (neg neu pos : list str) :
  (In NEGATIVE_FAILED (analyze neg neu pos) <-> neg = [])
  /\ (In NEUTRAL_FAILED (analyze neg neu pos) <-> neu = [])
  /\ (In POSITIVE_FAILED (analyze neg neu pos) <-> pos = [])
  /\ (In NEU_POS_MISMATCH (analyze neg neu pos) <-> length neu <> length pos).
Proof.
  destruct diagnostic_messages_distinct as (D1 & D2 & D3 & D4 & D5 & D6).
  rewrite analyze_expected. unfold expected_diagnostics.
  destruct (Nat.eq_dec (length neu) (length pos)) as [E|E];
    destruct neg as [|a neg], neu as [|b neu], pos as [|c pos];
    cbn [app In]; try (simpl in E; discriminate E);
    repeat split; intros;
    repeat match goal with
           | H : _ \/ _ |- _ => destruct H
           | H : False |- _ => destruct H
           end;
    try discriminate; try congruence; try tauto; auto.
Qed.

Lemma analyze_NoDup (neg neu pos : list str) :
  NoDup (analyze neg neu pos) /\ length (analyze neg neu pos) <= 4.
Proof.
  destruct diagnostic_messages_distinct as (D1 & D2 & D3 & D4 & D5 & D6).
  rewrite analyze_expected. unfold expected_diagnostics.
  destruct (Nat.eq_dec (length neu) (length pos)) as [E|E];
    destruct neg as [|a neg], neu as [|b neu], pos as [|c pos];
    cbn [app length]; (split; [|lia]);
    repeat (constructor;
            [cbn [In]; intros H;
             repeat match goal with
                    | H : _ \/ _ |- _ => destruct H
                    | H : False |- _ => destruct H
                    end; congruence|]);
    constructor.
Qed.

(** X7. The diagnostics depend on the lengths of the three sequences
    only, not on their items; no message is reported twice, and at most
    four are. *)
Theorem analyze_counts_only (neg neu pos neg' neu' pos' : list str) :
  length neg = length neg' -> length neu = length neu' ->
  length pos = length pos' ->
  analyze neg neu pos = analyze neg' neu' pos'
  /\ NoDup (analyze neg neu pos)
  /\ length (analyze neg neu pos) <= 4.
Proof.
  intros H1 H2 H3. split; [|apply analyze_NoDup].
  rewrite !analyze_expected. unfold expected_diagnostics.
  rewrite H2, H3.
  destruct neg, neg'; try discriminate H1;
    destruct neu, neu'; try discriminate H2;
    destruct pos, pos'; try discriminate H3; reflexivity.
Qed.

Lemma analyze_counts_only_witness :
  analyze [lit "event horizon"] [lit "a acts on b."] []
  = analyze [lit "photon"] [lit "c meets d."] []
  /\ analyze [lit "event horizon"] [lit "a acts on b."] []
     = [POSITIVE_FAILED; NEU_POS_MISMATCH].
Proof.
  split; [|reflexivity].
  exact (proj1 (analyze_counts_only [lit "event horizon"] [lit "a acts on b."] []
                  [lit "photon"] [lit "c meets d."] [] eq_refl eq_refl eq_refl)).
Defined.

Section RunResult.

Variable db : unicode_db.
Variable gw : gateway.

(** The fields of the result, stage by stage. *)
Lemma run_stages (topic : str) (log : list request) :
  exists raw1 raw2 raw3 raw4,
    fst (run db gw topic log) =
      Result.make topic
        (sanitize_explanation db raw1)
        (parse_negative db raw2)
        (parse_neutral raw3)
        (parse_positive db (parse_neutral raw3) raw4)
        (analyze (parse_negative db raw2) (parse_neutral raw3)
                 (parse_positive db (parse_neutral raw3) raw4)).
Proof.
  unfold run, bind.
  rewrite build_explanation_run, extract_negative_run,
    extract_neutral_run, extract_positive_run.
  unfold ret. cbn [fst]. do 4 eexists. reflexivity.
Qed.

(** X8. Whatever the Gateway answers, the result of a run keeps the
    topic as given, has an explanation of one line that ends with a
    period, at most ten negative items, neutral items that each end with
    exactly one period, no more positive items than neutral ones, and at
    most four diagnostics. *)
Theorem run_result_invariants (topic : str) (log : list request) :
  let res := fst (run db gw topic log) in
  Result.topic res = topic
  /\ (exists p, Result.explanation res = p ++ [DOT])
  /\ ~ In LF (Result.explanation res)
  /\ length (Result.negative res) <= 10
  /\ Forall ends_with_one_dot (Result.neutral res)
  /\ length (Result.positive res) <= length (Result.neutral res)
  /\ length (Result.diagnostics res) <= 4.
Proof.
  cbv zeta. destruct (run_stages topic log) as (r1 & r2 & r3 & r4 & ->).
  cbn [Result.topic Result.explanation Result.negative Result.neutral
       Result.positive Result.diagnostics].
  repeat split.
  - apply sanitize_ends_with_dot.
  - apply sanitize_no_newline.
  - apply firstn_le_length.
  - unfold parse_neutral. apply Forall_forall. intros item Hin.
    apply in_map_iff in Hin as [l [<- _]]. apply parse_neutral_item.
  - apply firstn_le_length.
  - apply analyze_NoDup.
Qed.

(** X9. In the result of a run the mismatch message is reported exactly
    when the positive list is shorter than the neutral list, and a failed
    neutral stage always comes with a failed positive stage: the positive
    list is cut to the length of the neutral one. *)
Theorem run_diagnostics_consistent (topic : str) (log : list request) :
  let res := fst (run db gw topic log) in
  (In NEU_POS_MISMATCH (Result.diagnostics res) <->
     length (Result.positive res) < length (Result.neutral res))
  /\ (In NEUTRAL_FAILED (Result.diagnostics res) ->
      In POSITIVE_FAILED (Result.diagnostics res))
  /\ (In NEUTRAL_FAILED (Result.diagnostics res) ->
      ~ In NEU_POS_MISMATCH (Result.diagnostics res)).
Proof.
  cbv zeta. destruct (run_stages topic log) as (r1 & r2 & r3 & r4 & ->).
  cbn [Result.neutral Result.positive Result.diagnostics].
  set (neg := parse_negative db r2). set (neu := parse_neutral r3).
  assert (length (parse_positive db neu r4) <= length neu) as Hle
    by apply firstn_le_length.
  set (pos := parse_positive db neu r4) in *.
  destruct (analyze_In neg neu pos) as (_ & Hneu & Hpos & Hmis).
  split; [|split].
  - rewrite Hmis. lia.
  - rewrite Hneu, Hpos. intros E. rewrite E in Hle.
    destruct pos; [reflexivity | simpl in Hle; lia].
  - rewrite Hneu, Hmis. intros E. rewrite E in *.
    destruct pos; [simpl; lia | simpl in Hle; lia].
Qed.

End RunResult.

Lemma run_diagnostics_consistent_witness :
  In NEUTRAL_FAILED
     (Result.diagnostics (fst (run ascii_db (fun _ _ => None) (lit "tides") [])))
  /\ In POSITIVE_FAILED
       (Result.diagnostics (fst (run ascii_db (fun _ _ => None) (lit "tides") []))).
Proof.
  assert (In NEUTRAL_FAILED
            (Result.diagnostics (fst (run ascii_db (fun _ _ => None) (lit "tides") []))))
    as H by (right; left; reflexivity).
  split; [exact H|].
  exact (proj1 (proj2 (run_diagnostics_consistent ascii_db (fun _ _ => None)
                         (lit "tides") [])) H).
Defined.

(** ** More on the sanitizer *)

Lemma mem_In (c : char) (s : str) : mem c s = true <-> In c s.
Proof.
  unfold mem. rewrite existsb_exists. split.
  - intros [x [Hx E]]. apply N.eqb_eq in E. now subst.
  - intros H. exists c. split; [exact H | apply N.eqb_refl].
Qed.

Lemma dropwhile_app_stop (f : char -> bool) (p : str) (d : char) (t : str) :
  f d = false -> dropwhile f (p ++ d :: t) = dropwhile f (p ++ [d]) ++ t.
Proof.
  intros Hd. induction p as [|c p IH]; cbn [app dropwhile].
  - now rewrite Hd.
  - destruct (f c); [exact IH | cbn [app]; now rewrite <- app_assoc].
Qed.

Lemma dropwhile_app_all (f : char -> bool) (a b : str) :
  forallb f a = true -> dropwhile f (a ++ b) = dropwhile f b.
Proof.
  induction a as [|c a IH]; [reflexivity|]. cbn [forallb app dropwhile].
  intros H. apply andb_true_iff in H as [-> H]. now apply IH.
Qed.

(** Whitespace after a text that ends with another character is
    stripped with nothing else. *)
Lemma strip_by_app_blank (f : char -> bool) (p : str) (d : char) (ws : str) :
  f d = false -> forallb f ws = true ->
  strip_by f (p ++ [d] ++ ws) = strip_by f (p ++ [d]).
Proof.
  intros Hd Hws. unfold strip_by, lstrip_by, rstrip_by. cbn [app].
  rewrite dropwhile_app_stop by exact Hd.
  rewrite rev_app_distr, dropwhile_app_all; [reflexivity|].
  apply forallb_forall. intros x Hx. apply in_rev in Hx.
  exact (proj1 (forallb_forall f ws) Hws x Hx).
Qed.

Section SanitizerMore.

Variable db : unicode_db.

(** X10. The sanitized text holds no newline and no whitespace at
    either end: it is one trimmed line. *)
Theorem sanitized_explanation_one_trimmed_line (s : str) :
  ~ In LF (sanitize_explanation db s)
  /\ strip (sanitize_explanation db s) = sanitize_explanation db s
  /\ match sanitize_explanation db s with
     | c :: _ => is_space c = false
     | [] => False
     end.
Proof.
  split; [apply sanitize_no_newline|]. split; [apply sanitize_stripped|].
  pose proof (strip_by_head is_space (sanitize_explanation db s)) as H.
  fold (strip (sanitize_explanation db s)) in H. rewrite sanitize_stripped in H.
  destruct (sanitize_ends_with_dot db s) as [p E].
  destruct (sanitize_explanation db s); [destruct p; discriminate E | exact H].
Qed.

(** X11. A text of one line that ends with a period, has no whitespace
    at its ends and holds no banned term is returned as it is. *)
Theorem sanitize_clean_text_unchanged (t : str) :
  endswith_dot t = true -> mem LF t = false -> strip t = t ->
  has_banned explanation_banned t = false ->
  sanitize_explanation db t = t.
Proof.
  intros Hd Hn Hs Hb. destruct (endswith_dot_inv t Hd) as [p E].
  apply (sanitize_fixed db t p E); [|exact Hs|exact Hb].
  intros Hin. apply mem_In in Hin. congruence.
Qed.

(** X12. An unfinished word at the end of the text, with the whitespace
    before it, is dropped: the text sanitizes as the text before it
    does, when that ends with a character that is neither a word
    character nor whitespace. *)
Theorem sanitize_drops_fragment (p : str) (d : char) (ws w : str) :
  is_word db d = false -> is_space d = false ->
  forallb (fun c => is_space c && negb (is_word db c)) ws = true ->
  forallb (is_word db) w = true -> w <> [] ->
  sanitize_explanation db (p ++ [d] ++ ws ++ w) = sanitize_explanation db (p ++ [d]).
Proof.
  intros Hd Hsp Hws Hw Hne.
  assert (forallb is_space ws = true /\ forallb (fun c => negb (is_word db c)) ws = true)
    as [Hws1 Hws2].
  { split; apply forallb_forall; intros c Hc;
      apply (proj1 (forallb_forall _ ws) Hws) in Hc;
      apply andb_true_iff in Hc as [H1 H2]; assumption. }
  assert (d <> LF) as Hlf by (intros ->; discriminate Hsp).
  assert (re_sub_trailing_word db (p ++ [d] ++ ws ++ w) = p ++ [d] ++ ws) as E1.
  { unfold re_sub_trailing_word.
    pose proof (re_sub_go_decomp db w [] Hw (or_introl eq_refl)
                  (p ++ [d] ++ ws) false) as H.
    rewrite !app_nil_r in H. rewrite <- !app_assoc in H.
    apply H; [|reflexivity].
    right. destruct ws as [|c ws0] using rev_ind.
    - exists p, d. rewrite app_nil_r. repeat split; [exact Hd | now intros _].
    - exists (p ++ [d] ++ ws0), c. rewrite <- !app_assoc. repeat split.
      + rewrite forallb_app in Hws2. apply andb_true_iff in Hws2 as [_ H2].
        cbn [forallb] in H2. rewrite andb_true_r in H2. now apply negb_true_iff.
      + now intros _. }
  assert (re_sub_trailing_word db (p ++ [d]) = p ++ [d]) as E2
    by (apply re_sub_keeps_punctuated; assumption).
  assert (strip (p ++ [d] ++ ws) = strip (p ++ [d])) as E3
    by (apply strip_by_app_blank; assumption).
  unfold sanitize_explanation. cbv zeta. now rewrite E1, E2, E3.
Qed.

End SanitizerMore.

Lemma sanitize_clean_text_unchanged_witness :
  sanitize_explanation ascii_db (lit "Pairs form near the horizon. One escapes.")
  = lit "Pairs form near the horizon. One escapes.".
Proof.
  apply (sanitize_clean_text_unchanged ascii_db
           (lit "Pairs form near the horizon. One escapes.")); reflexivity.
Defined.

Lemma sanitize_drops_fragment_witness :
  sanitize_explanation ascii_db (lit "Pairs form. esc")
  = sanitize_explanation ascii_db (lit "Pairs form.")
  /\ sanitize_explanation ascii_db (lit "Pairs form.") = lit "Pairs form.".
Proof.
  split; [|reflexivity].
  apply (sanitize_drops_fragment ascii_db (lit "Pairs form") DOT (lit " ") (lit "esc"));
    try reflexivity. discriminate.
Defined.

(** ** The neutral list as a response *)

Lemma rstrip_by_In (f : char -> bool) (s : str) (c : char) :
  In c (rstrip_by f s) -> In c s.
Proof.
  unfold rstrip_by. intros H. apply in_rev, dropwhile_In in H. now apply in_rev.
Qed.

Lemma filter_all {A} (f : A -> bool) (l : list A) :
  Forall (fun x => f x = true) l -> filter f l = l.
Proof.
  induction 1 as [|x l Hx _ IH]; [reflexivity|]. cbn [filter]. now rewrite Hx, IH.
Qed.

Lemma map_fixed {A} (g : A -> A) (l : list A) :
  Forall (fun x => g x = x) l -> map g l = l.
Proof.
  induction 1 as [|x l Hx _ IH]; [reflexivity|]. cbn [map]. now rewrite Hx, IH.
Qed.

(** A sentence the stage has formed is formed again as it is. *)
Lemma neutral_sentence_fixed (l : str) :
  let item := rstrip_chars [DOT] (strip l) ++ [DOT] in
  strip item = item /\ rstrip_chars [DOT] (strip item) ++ [DOT] = item.
Proof.
  cbv zeta. set (q := rstrip_chars [DOT] (strip l)).
  assert (strip (q ++ [DOT]) = q ++ [DOT]) as Es.
  { unfold strip. rewrite strip_by_app_last by reflexivity. f_equal.
    apply dropwhile_fixed.
    destruct (rstrip_by_decomp (fun c => mem c [DOT]) (strip l)) as [w [Hw _]].
    fold (rstrip_chars [DOT] (strip l)) in Hw. fold q in Hw.
    pose proof (strip_by_head is_space l) as Hh. fold (strip l) in Hh.
    rewrite Hw in Hh. destruct q; [exact I | exact Hh]. }
  split; [exact Es|]. rewrite Es. f_equal.
  pose proof (rstrip_by_last (fun c => mem c [DOT]) (strip l)) as Hl.
  fold (rstrip_chars [DOT] (strip l)) in Hl. fold q in Hl.
  unfold rstrip_chars at 1, rstrip_by. rewrite rev_unit.
  change (dropwhile (fun c => mem c [DOT]) (DOT :: rev q))
    with (dropwhile (fun c => mem c [DOT]) (rev q)).
  rewrite (dropwhile_fixed (fun c => mem c [DOT]) (rev q) Hl).
  apply rev_involutive.
Qed.

Lemma parse_neutral_lines (raw : str) :
  Forall (fun l => no_linebreak l /\ truthy l = true) (parse_neutral raw).
Proof.
  unfold parse_neutral. apply Forall_forall. intros item Hin.
  apply in_map_iff in Hin as [l [<- Hl]]. apply filter_In in Hl as [Hl _].
  pose proof (proj1 (Forall_forall _ _) (splitlines_no_linebreak raw) l Hl) as Hnl.
  split.
  - unfold no_linebreak in *. apply Forall_app. split.
    + apply Forall_forall. intros c Hc.
      apply rstrip_by_In, strip_by_In in Hc.
      exact (proj1 (Forall_forall _ l) Hnl c Hc).
    + now constructor.
  - destruct (rstrip_chars [DOT] (strip l)); reflexivity.
Qed.

(** X13. The neutral list, sent back line by line as a response, is
    parsed into itself: the sentences are already in their final form. *)
Theorem parse_neutral_stable (raw : str) :
  parse_neutral (join [LF] (parse_neutral raw)) = parse_neutral raw.
Proof.
  unfold parse_neutral at 1.
  rewrite (splitlines_join (parse_neutral raw) (parse_neutral_lines raw)).
  assert (Forall (fun item => strip item = item
                              /\ rstrip_chars [DOT] (strip item) ++ [DOT] = item)
                 (parse_neutral raw)) as H.
  { unfold parse_neutral. apply Forall_forall. intros item Hin.
    apply in_map_iff in Hin as [l [<- _]]. apply neutral_sentence_fixed. }
  rewrite filter_all.
  - apply map_fixed. eapply Forall_impl; [|exact H]. now intros item [_ E].
  - pose proof (parse_neutral_lines raw) as Hne.
    apply Forall_forall. intros item Hin.
    destruct (proj1 (Forall_forall _ _) H item Hin) as [-> _].
    exact (proj2 (proj1 (Forall_forall _ _) Hne item Hin)).
Qed.

(** ** Prompts and report *)

Lemma occurs_in_refl (x : str) : occurs_in x x.
Proof. exists [], []. now rewrite app_nil_r. Qed.

Lemma occurs_in_app_l (x a b : str) : occurs_in x b -> occurs_in x (a ++ b).
Proof. intros [u [v ->]]. exists (a ++ u), v. now rewrite <- app_assoc. Qed.

Lemma occurs_in_app_r (x a b : str) : occurs_in x a -> occurs_in x (a ++ b).
Proof. intros [u [v ->]]. exists u, (v ++ b). now rewrite <- !app_assoc. Qed.

Lemma occurs_in_trans (x y z : str) : occurs_in x y -> occurs_in y z -> occurs_in x z.
Proof.
  intros [u [v ->]] [u' [v' ->]]. exists (u' ++ u), (v ++ v').
  now rewrite <- !app_assoc.
Qed.

Lemma join_occurs (sep : str) (L : list str) (x : str) :
  In x L -> occurs_in x (join sep L).
Proof.
  induction L as [|a L IH]; [intros []|]. intros [<-|H]; cbn [join].
  - destruct L; [apply occurs_in_refl | apply occurs_in_app_r, occurs_in_refl].
  - destruct L as [|b L]; [destruct H|].
    apply occurs_in_app_l, occurs_in_app_l. now apply IH.
Qed.

Lemma dash_list_occurs (items : list str) (n : str) :
  In n items -> occurs_in (lit "- " ++ n) (dash_list items).
Proof.
  intros H. unfold dash_list. apply join_occurs.
  apply in_map_iff. now exists n.
Qed.

Lemma print_items_occurs (items : list str) (n : str) :
  In n items -> occurs_in ([SPACE; SPACE] ++ n ++ [LF]) (print_items items).
Proof.
  unfold print_items. induction items as [|a items IH]; [intros []|].
  intros [<-|H]; cbn [map concat].
  - apply occurs_in_app_r. unfold print_line. cbn [join app].
    apply occurs_in_refl.
  - apply occurs_in_app_l. now apply IH.
Qed.

(** X14. Each prompt carries the input of its stage as it is: the
    topic and the explanation between triple quotes, every negative and
    every neutral item on a dash line of the list. *)
Theorem prompts_carry_input (topic explanation : str) (negative neutral : list str) :
  occurs_in (triple_quoted topic) (explanation_prompt topic)
  /\ occurs_in (triple_quoted explanation) (negative_prompt explanation)
  /\ Forall (fun n => occurs_in (lit "- " ++ n) (neutral_prompt negative)) negative
  /\ Forall (fun n => occurs_in (lit "- " ++ n) (positive_prompt neutral)) neutral.
Proof.
  repeat split.
  - unfold explanation_prompt, text. apply join_occurs. cbn [In].
    repeat (first [left; reflexivity | right]).
  - unfold negative_prompt, text. apply join_occurs. cbn [In].
    repeat (first [left; reflexivity | right]).
  - apply Forall_forall. intros n Hn.
    apply (occurs_in_trans _ _ _ (dash_list_occurs negative n Hn)).
    unfold neutral_prompt, text. cbv zeta. apply join_occurs. cbn [In].
    repeat (first [left; reflexivity | right]).
  - apply Forall_forall. intros n Hn.
    apply (occurs_in_trans _ _ _ (dash_list_occurs neutral n Hn)).
    unfold positive_prompt, text. cbv zeta. apply join_occurs. cbn [In].
    repeat (first [left; reflexivity | right]).
Qed.

(** X15. The report shows the topic and the explanation after their
    labels, and every item of the three lists and every diagnostic on a
    line of its own, after two spaces. *)
Theorem report_shows_result (result : TriadicResult) :
  occurs_in (lit "TOPIC: " ++ Result.topic result) (report result)
  /\ occurs_in (lit "EXPLANATION: " ++ Result.explanation result) (report result)
  /\ Forall (fun n => occurs_in ([SPACE; SPACE] ++ n ++ [LF]) (report result))
            (Result.negative result)
  /\ Forall (fun n => occurs_in ([SPACE; SPACE] ++ n ++ [LF]) (report result))
            (Result.neutral result)
  /\ Forall (fun n => occurs_in ([SPACE; SPACE] ++ n ++ [LF]) (report result))
            (Result.positive result)
  /\ Forall (fun n => occurs_in ([SPACE; SPACE] ++ n ++ [LF]) (report result))
            (Result.diagnostics result).
Proof.
  unfold report. repeat split.
  - apply occurs_in_app_l, occurs_in_app_r. unfold print_line. cbn [join].
    exists [], ([SPACE; LF] ++ [LF]). now rewrite <- !app_assoc.
  - do 2 apply occurs_in_app_l. apply occurs_in_app_r. unfold print_line. cbn [join].
    exists [], ([SPACE; LF] ++ [LF]). now rewrite <- !app_assoc.
  - apply Forall_forall. intros n Hn.
    do 4 apply occurs_in_app_l. apply occurs_in_app_r. now apply print_items_occurs.
  - apply Forall_forall. intros n Hn.
    do 6 apply occurs_in_app_l. apply occurs_in_app_r. now apply print_items_occurs.
  - apply Forall_forall. intros n Hn.
    do 8 apply occurs_in_app_l. apply occurs_in_app_r. now apply print_items_occurs.
  - apply Forall_forall. intros n Hn.
    do 10 apply occurs_in_app_l. now apply print_items_occurs.
Qed.

(** ** A line of bullets *)

Lemma dropwhile_nil_all (f : char -> bool) (s : str) :
  dropwhile f s = [] -> forallb f s = true.
Proof.
  intros H. destruct (dropwhile_suffix f s) as [a [Ha Hf]].
  rewrite H, app_nil_r in Ha. now subst a.
Qed.

Lemma strip_by_nil_all (f : char -> bool) (s : str) :
  strip_by f s = [] -> forallb f s = true.
Proof.
  unfold strip_by, lstrip_by, rstrip_by. intros H.
  apply (f_equal (@rev char)) in H. rewrite rev_involutive in H. cbn [rev] in H.
  pose proof (dropwhile_head f s) as Hh.
  apply dropwhile_nil_all in H.
  apply dropwhile_nil_all.
  destruct (dropwhile f s) as [|c r]; [reflexivity|].
  assert (f c = true) as Hc.
  { apply (proj1 (forallb_forall f _) H). apply in_rev. rewrite rev_involutive. now left. }
  congruence.
Qed.

Lemma splitlines_single (l : str) :
  no_linebreak l -> truthy l = true -> splitlines l = [l].
Proof.
  intros Hn Ht. apply (splitlines_join [l]). now repeat constructor.
Qed.

(** X16. A response of one line made of bullet characters only, not all
    of them whitespace, gives a negative list, and a positive list when
    one is expected, that holds the empty string: the line counts since
    it is not blank, and stripping its bullets leaves nothing. *)
Theorem bullets_only_line_gives_empty_item (db : unicode_db) (raw : str)
    (n : str) (neutral : list str) :
  forallb (fun c => mem c bullet_chars) raw = true -> blank raw = false ->
  parse_negative db raw = [[]]
  /\ parse_positive db (n :: neutral) raw = [[]]
  /\ analyze (parse_negative db raw) [] [] = [NEUTRAL_FAILED; POSITIVE_FAILED].
Proof.
  intros Hb Hnb.
  assert (no_linebreak raw) as Hnl.
  { apply Forall_forall. intros c Hc.
    apply (proj1 (forallb_forall _ raw) Hb) in Hc.
    unfold mem, bullet_chars in Hc. cbn [existsb] in Hc.
    repeat (apply orb_true_iff in Hc as [Hc|Hc];
            [apply N.eqb_eq in Hc; subst c; reflexivity|]).
    discriminate Hc. }
  assert (truthy (strip raw) = true) as Hs.
  { destruct (strip raw) eqn:E; [|reflexivity].
    apply strip_by_nil_all in E. unfold blank in Hnb. congruence. }
  assert (truthy raw = true) as Hr by (destruct raw; [discriminate Hnb | reflexivity]).
  assert (filter (fun l => truthy (strip l)) (splitlines raw) = [raw]) as Hl.
  { rewrite (splitlines_single raw Hnl Hr). cbn [filter]. now rewrite Hs. }
  assert (strip_chars bullet_chars raw = []) as Hc
    by (apply strip_by_all; exact Hb).
  assert (parse_negative db raw = [[]]) as E1.
  { unfold parse_negative, negative_items. rewrite Hl. cbn [map]. rewrite Hc. reflexivity. }
  split; [exact E1|]. split.
  - unfold parse_positive, positive_items. rewrite Hl. cbn [map]. rewrite Hc.
    change (light_filter db [[]]) with [@nil char].
    cbn [length firstn]. now rewrite firstn_nil.
  - rewrite E1. reflexivity.
Qed.

Lemma bullets_only_line_gives_empty_item_witness :
  parse_negative ascii_db (lit "- *") = [[]]
  /\ parse_positive ascii_db [lit "a acts on b."] (lit "- *") = [[]].
Proof.
  destruct (bullets_only_line_gives_empty_item ascii_db (lit "- *")
              (lit "a acts on b.") [] eq_refl eq_refl) as (A & B & _).
  split; assumption.
Defined.

(** ** A text of several lines *)

Lemma split_on_app_sep (sep : char) (x rest : str) :
  ~ In sep x -> split_on sep (x ++ sep :: rest) = x :: split_on sep rest.
Proof.
  induction x as [|c x IH]; intros H; cbn [app split_on].
  - now rewrite N.eqb_refl.
  - destruct (N.eqb c sep) eqn:E.
    + apply N.eqb_eq in E. subst. destruct H. now left.
    + rewrite IH; [reflexivity|]. intros Hin. apply H. now right.
Qed.

Lemma split_on_join (sep : char) (L : list str) :
  Forall (fun l => mem sep l = false) L -> L <> [] ->
  split_on sep (join [sep] L) = L.
Proof.
  induction 1 as [|x L Hx HL IH]; intros Hne; [now destruct Hne|].
  assert (~ In sep x) as Hx' by (intros Hin; apply mem_In in Hin; congruence).
  cbn [join]. destruct L as [|y L].
  - now apply split_on_single.
  - cbn [app]. rewrite split_on_app_sep by exact Hx'.
    rewrite IH; [reflexivity | discriminate].
Qed.

(** Stripped lines, joined, form a text without whitespace at its ends. *)
Lemma join_stripped (sep : str) (L0 : list str) (p : str) :
  Forall (fun l => strip l = l /\ truthy l = true) (L0 ++ [p ++ [DOT]]) ->
  strip (join sep (L0 ++ [p ++ [DOT]])) = join sep (L0 ++ [p ++ [DOT]]).
Proof.
  intros H.
  assert (match join sep (L0 ++ [p ++ [DOT]]) with
          | [] => True | c :: _ => is_space c = false end) as Hh.
  { destruct (L0 ++ [p ++ [DOT]]) as [|x L] eqn:E; [exact I|].
    inversion H as [|? ? [Hs Ht] _]; subst.
    pose proof (strip_by_head is_space x) as Hx. fold (strip x) in Hx.
    rewrite Hs in Hx. destruct x as [|c x]; [discriminate Ht|].
    cbn [join]. destruct L; exact Hx. }
  destruct (join_app_last sep L0 (p ++ [DOT])) as [pre E].
  change (join sep (L0 ++ [p ++ [DOT]]) = pre ++ p ++ [DOT]) in E.
  rewrite E in Hh. rewrite E. rewrite app_assoc in Hh. rewrite app_assoc.
  unfold strip. rewrite strip_by_app_last by reflexivity. f_equal.
  apply dropwhile_fixed. destruct (pre ++ p); [exact I | exact Hh].
Qed.

Section Lines.

Variable db : unicode_db.

(** X17. A text of several lines, each without whitespace at its ends
    and not empty, the last one ending with a period, is collapsed into
    one line: the lines joined by single spaces, when no banned term
    occurs in that line. *)
Theorem sanitize_joins_lines (L0 : list str) (p : str) :
  Forall (fun l => strip l = l /\ truthy l = true /\ mem LF l = false)
         (L0 ++ [p ++ [DOT]]) ->
  has_banned explanation_banned (join [SPACE] (L0 ++ [p ++ [DOT]])) = false ->
  sanitize_explanation db (join [LF] (L0 ++ [p ++ [DOT]]))
  = join [SPACE] (L0 ++ [p ++ [DOT]]).
Proof.
  intros H Hb. set (L := L0 ++ [p ++ [DOT]]) in *.
  assert (Forall (fun l => strip l = l /\ truthy l = true) L) as H1
    by (eapply Forall_impl; [|exact H]; intros l (A & B & _); now split).
  assert (Forall (fun l => mem LF l = false) L) as H2
    by (eapply Forall_impl; [|exact H]; now intros l (_ & _ & C)).
  destruct (join_app_last [LF] L0 (p ++ [DOT])) as [pre E].
  change (join [LF] L = pre ++ p ++ [DOT]) in E.
  assert (re_sub_trailing_word db (join [LF] L) = join [LF] L) as E1.
  { rewrite E, app_assoc. apply re_sub_keeps_punctuated; [reflexivity | discriminate]. }
  assert (endswith_dot (join [LF] L) = true) as E2
    by (rewrite E, app_assoc; apply endswith_dot_app).
  assert (split_on LF (join [LF] L) = L) as E3.
  { apply split_on_join; [exact H2|]. unfold L. destruct L0; discriminate. }
  assert (filter (fun l => truthy (strip l)) L = L) as E4.
  { apply filter_all. eapply Forall_impl; [|exact H1]. intros l [-> Ht]. exact Ht. }
  assert (map strip L = L) as E5.
  { apply map_fixed. eapply Forall_impl; [|exact H1]. now intros l [Hs _]. }
  pose proof (join_stripped [LF] L0 p H1) as S1.
  change (strip (join [LF] L) = join [LF] L) in S1.
  pose proof (join_stripped [SPACE] L0 p H1) as S2.
  change (strip (join [SPACE] L) = join [SPACE] L) in S2.
  unfold sanitize_explanation. cbv zeta.
  rewrite E1, S1, E2, E3, E4, E5, (scrub_absent _ _ Hb). exact S2.
Qed.

End Lines.

Lemma sanitize_joins_lines_witness :
  sanitize_explanation ascii_db
    (text [lit "Pairs form near the horizon."; lit "One partner escapes."])
  = lit "Pairs form near the horizon. One partner escapes.".
Proof.
  apply (sanitize_joins_lines ascii_db [lit "Pairs form near the horizon."]
           (lit "One partner escapes")).
  - repeat constructor.
  - reflexivity.
Defined.
